(** * frakti: the hyper runtime's sandbox operations (pkg/hyper/hyper.go)

    A shallow embedding of [Runtime]'s sandbox-level operations: [Status],
    [RunPodSandbox], [StopPodSandbox], [DeletePodSandbox], [PodSandboxStatus]
    and [ListPodSandbox].  The hyperd client is an arbitrary stateful
    collaborator; the operations are written in a small state monad that
    threads the client's hidden state, the trace of client calls and the glog
    output.  The helpers of the package that live next to hyper.go (name
    codec, phase mapping, label helpers, sorting) are modelled from the
    specification and marked as such. *)

From Stdlib Require Import String Ascii ZArith NArith List Lia.
From Stdlib Require Import DecimalString DecimalN DecimalFacts Sorted Permutation.
From stdpp Require Import base gmap strings list fin_maps.

Local Open Scope string_scope.
Local Open Scope Z_scope.

(* ===================================================================== *)
(** ** Go strings: the few functions of package [strings] that are used *)
(* ===================================================================== *)

Module GoStrings.

(** [strings.Split(s, sep)] for a one-character separator.  As in Go, the
    result is never empty: splitting the empty string gives one empty
    field. *)
Fixpoint Split (s : string) (sep : ascii) : list string :=
  match s with
  | EmptyString => [EmptyString]
  | String c rest =>
      if Ascii.eqb c sep then EmptyString :: Split rest sep
      else match Split rest sep with
           | f :: fs => String c f :: fs
           | [] => [String c EmptyString]
           end
  end.

(** [strings.Join(fields, sep)]. *)
Fixpoint Join (fields : list string) (sep : ascii) : string :=
  match fields with
  | [] => EmptyString
  | [f] => f
  | f :: fs => f +:+ String sep (Join fs sep)
  end.

(** [!strings.ContainsRune(s, c)]. *)
Fixpoint lacks (c : ascii) (s : string) : bool :=
  match s with
  | EmptyString => true
  | String a rest => negb (Ascii.eqb a c) && lacks c rest
  end.

(** [strings.HasPrefix(s, prefix)]. *)
Fixpoint HasPrefix (s prefix : string) {struct prefix} : bool :=
  match prefix, s with
  | EmptyString, _ => true
  | String p prefix', String a s' => Ascii.eqb a p && HasPrefix s' prefix'
  | String _ _, EmptyString => false
  end.

(** [s[n:]] for [n <= len(s)]. *)
Fixpoint drop_chars (n : nat) (s : string) : string :=
  match n, s with
  | O, _ => s
  | S n', String _ s' => drop_chars n' s'
  | S _, EmptyString => EmptyString
  end.

(** [strings.TrimPrefix(s, prefix)]. *)
Definition TrimPrefix (s prefix : string) : string :=
  if HasPrefix s prefix then drop_chars (String.length prefix) s else s.

(** [fmt.Sprintf("%d", n)] for an unsigned [n]. *)
Definition FormatUint (n : N) : string :=
  NilEmpty.string_of_uint (N.to_uint n).



End GoStrings.
Import GoStrings.

(* ===================================================================== *)
(** ** Data model *)
(* ===================================================================== *)

(** Go's [error] values.  [InvalidNameFormat] is what the name codec
    reports, [SpecBuildError] what [buildUserPod] reports; every other
    error comes from the hyperd client and is opaque to this package. *)
Inductive Error : Type :=
| InvalidNameFormat (token : string)
| SpecBuildError (msg : string)
| EngineError (msg : string).

(** [err.Error()], as [%v] prints it. *)
Definition Error_string (e : Error) : string :=
  match e with
  | InvalidNameFormat token => "failed to parse sandbox name " +:+ token
  | SpecBuildError msg => msg
  | EngineError msg => msg
  end.

(** A value of interface type [error]: [None] is [nil]. *)
Abbreviation error := (option Error).

(** [kubeapi.PodSandboxMetadata]; [Attempt] is a [uint32]. *)
Record PodSandboxMetadata : Type := mkMetadata {
  Name : string;
  Uid : string;
  Namespace : string;
  Attempt : N
}.

(** [kubeapi.PodSandBoxState]. *)
Inductive PodSandBoxState : Type := READY | NOTREADY.

Definition PodSandBoxState_eqb (a b : PodSandBoxState) : bool :=
  match a, b with
  | READY, READY | NOTREADY, NOTREADY => true
  | _, _ => false
  end.

(** 64-bit signed integers ([int64]) are integers with the wrap-around of
    Go's arithmetic written out. *)
Definition int64_min : Z := - 2 ^ 63.
Definition int64_max : Z := 2 ^ 63 - 1.
Definition in_int64 (z : Z) : Prop := int64_min <= z <= int64_max.
Definition wrap_int64 (z : Z) : Z := (z + 2 ^ 63) mod 2 ^ 64 - 2 ^ 63.
Definition mul_int64 (a b : Z) : Z := wrap_int64 (a * b).

(** [uint32] range, the type of [Attempt]. *)
Definition uint32_max : N := (2 ^ 32 - 1)%N.

(** The constants of hyper.go. *)
Definition hyperRuntimeName : string := "hyper".
Definition minimumHyperVersion : string := "0.6.0".
Definition secondToNano : Z := 1000000000.

(** [kubeapi.RuntimeReady] and [kubeapi.NetworkReady]. *)
Definition RuntimeReady : string := "RuntimeReady".
Definition NetworkReady : string := "NetworkReady".

(** [kubeapi.RuntimeCondition]: proto2 optional fields are pointers, [None]
    is an unset field. *)
Record RuntimeCondition : Type := mkCondition {
  cond_Type : option string;
  cond_Status : option bool;
  cond_Reason : option string;
  cond_Message : option string
}.

(** [kubeapi.RuntimeStatus]. *)
Record RuntimeStatus : Type := mkRuntimeStatus {
  Conditions : list RuntimeCondition
}.

(** [kubeapi.PodSandboxConfig], the fields this package reads.  A nil
    [Metadata] pointer is [None]. *)
Record PodSandboxConfig : Type := mkConfig {
  cfg_Metadata : option PodSandboxMetadata;
  cfg_Hostname : string;
  cfg_Labels : gmap string string;
  cfg_Annotations : gmap string string
}.

(** [types.UserPod], the pod specification handed to hyperd. *)
Record UserPod : Type := mkUserPod {
  up_Id : string;
  up_Hostname : string;
  up_Labels : gmap string string
}.

(** [types.PodInfo] with its [Spec] and [Status] flattened: [PodName],
    [Spec.Labels], [Status.Phase], [Status.PodIP], [CreatedAt] (an
    [int64], in seconds).  The records hyperd returns on success are taken
    to be fully populated (non-nil [Spec] and [Status]). *)
Record PodInfo : Type := mkPodInfo {
  info_PodName : string;
  info_Spec_Labels : gmap string string;
  info_Status_Phase : string;
  info_Status_PodIP : list string;
  info_CreatedAt : Z
}.

(** [types.PodListResult]. *)
Record PodListResult : Type := mkPodListResult {
  pod_PodID : string;
  pod_PodName : string;
  pod_Labels : gmap string string;
  pod_CreatedAt : Z;
  pod_Status : string
}.

(** [kubeapi.PodSandboxStatus]; every field below is set by
    [PodSandboxStatus], so the pointers are not modelled as options. *)
Record PodSandboxStatus_t : Type := mkPodSandboxStatus {
  pss_Id : string;
  pss_Metadata : PodSandboxMetadata;
  pss_State : PodSandBoxState;
  pss_Network_Ip : string;
  pss_CreatedAt : Z;
  pss_Labels : gmap string string;
  pss_Annotations : gmap string string
}.

(** [kubeapi.PodSandbox], one entry of a listing. *)
Record PodSandbox : Type := mkPodSandbox {
  ps_Id : string;
  ps_Metadata : PodSandboxMetadata;
  ps_Labels : gmap string string;
  ps_State : PodSandBoxState;
  ps_CreatedAt : Z
}.

(** [kubeapi.PodSandboxFilter]: each clause is optional ([Id] and [State]
    are pointers, [LabelSelector] is a map that may be nil). *)
Record PodSandboxFilter : Type := mkFilter {
  flt_Id : option string;
  flt_State : option PodSandBoxState;
  flt_LabelSelector : option (gmap string string)
}.

(** The generated getters: the zero value when the field is unset. *)
Definition GetId (f : PodSandboxFilter) : string :=
  match flt_Id f with Some id => id | None => EmptyString end.
Definition GetState (f : PodSandboxFilter) : PodSandBoxState :=
  match flt_State f with Some s => s | None => READY end.

(* ===================================================================== *)
(** ** Helpers of the package that are not part of hyper.go *)
(* ===================================================================== *)

(** Modelled from the spec: the field separator of the sandbox name wire
    format ("a fixed field separator not expected to occur in the
    individual fields"); its definition is not in hyper.go. *)
Definition nameSeparator : ascii := "_"%char.

(** Modelled from the spec: [buildSandboxName], the encoder of the sandbox
    name codec, is not in hyper.go.  The wire format is "a single string
    combining namespace, name, uid, and attempt (decimal, non-negative)
    with a fixed field separator". *)
Definition buildSandboxName (m : PodSandboxMetadata) : string :=
  Join [Namespace m; Name m; Uid m; FormatUint (Attempt m)] nameSeparator.

(** Modelled from the spec: the decimal reader of the attempt field, not in
    hyper.go.  It accepts exactly the decimal numerals that [%d] writes for
    a [uint32] (no sign, no empty field, no redundant leading zero, no value
    above the range), because decoding "fails ... when the attempt field is
    not a non-negative integer", "never silently drops or truncates a
    field", and fails on every "string not produced by encode". *)
Definition parseUint32 (s : string) : option N :=
  match NilEmpty.uint_of_string s with
  | Some d =>
      if Decimal.uint_beq (Decimal.unorm d) d && (N.of_uint d <=? uint32_max)%N
      then Some (N.of_uint d)
      else None
  | None => None
  end.

(** Modelled from the spec: [parseSandboxName], the decoder of the sandbox
    name codec, is not in hyper.go.  It "fails with InvalidNameFormat when
    the token does not contain the expected number of fields or when the
    attempt field is not a non-negative integer".  The result has the shape
    of the Go function's: pod name, namespace, uid, attempt, error, with
    zero values next to a non-nil error. *)
Definition parseSandboxName (name : string)
  : string * string * string * N * error :=
  match Split name nameSeparator with
  | [podNamespace; podName; podUID; attempt] =>
      match parseUint32 attempt with
      | Some n => (podName, podNamespace, podUID, n, None)
      | None =>
          (EmptyString, EmptyString, EmptyString, 0%N,
           Some (InvalidNameFormat name))
      end
  | _ =>
      (EmptyString, EmptyString, EmptyString, 0%N,
       Some (InvalidNameFormat name))
  end.

(** The metadata the codec is meant for: no field contains the separator
    and the attempt fits its [uint32]. *)
Definition validMetadata (m : PodSandboxMetadata) : Prop :=
  lacks nameSeparator (Name m) = true /\
  lacks nameSeparator (Namespace m) = true /\
  lacks nameSeparator (Uid m) = true /\
  (Attempt m <= uint32_max)%N.

(** Modelled from the spec: the phases the status mapper recognises; the
    table is not in hyper.go.  The spec names one: phase "running" is
    [Ready]. *)
Definition recognizedPhases : list (string * PodSandBoxState) :=
  [("running", READY)].

(** Lookup in the phase table. *)
Fixpoint lookupPhase (table : list (string * PodSandBoxState)) (phase : string)
  : option PodSandBoxState :=
  match table with
  | [] => None
  | (p, s) :: rest => if String.eqb phase p then Some s else lookupPhase rest phase
  end.

(** Modelled from the spec: [toPodSandboxState] is not in hyper.go.  "Total
    function ... unrecognized phase values map to NotReady". *)
Definition toPodSandboxState (phase : string) : PodSandBoxState :=
  match lookupPhase recognizedPhases phase with
  | Some s => s
  | None => NOTREADY
  end.

(** Modelled from the spec: the reserved prefix that marks an annotation
    among the labels stored by hyperd; the constant is not in hyper.go. *)
Definition fraktiAnnotationLabel : string := "io.kubernetes.frakti.annotations.".

(** Modelled from the spec: [getKubeletLabels] is not in hyper.go.  "All
    other keys are routed to labels verbatim." *)
Definition getKubeletLabels (labels : gmap string string) : gmap string string :=
  map_fold
    (fun k v result =>
       if HasPrefix k fraktiAnnotationLabel then result else <[k := v]> result)
    ∅ labels.

(** Modelled from the spec: [getAnnotationsFromLabels] is not in hyper.go.
    "Keys carrying a reserved annotation marker are routed to annotations
    (marker stripped)." *)
Definition getAnnotationsFromLabels (labels : gmap string string)
  : gmap string string :=
  map_fold
    (fun k v annotations =>
       if HasPrefix k fraktiAnnotationLabel
       then <[TrimPrefix k fraktiAnnotationLabel := v]> annotations
       else annotations)
    ∅ labels.

(** Modelled from the spec: [buildLabelsWithAnnotations], the merge
    direction used when the pod specification is built, is not in hyper.go:
    labels are copied verbatim, annotations under their marked key. *)
Definition buildLabelsWithAnnotations (labels annotations : gmap string string)
  : gmap string string :=
  map_fold
    (fun k v rawLabels => <[fraktiAnnotationLabel +:+ k := v]> rawLabels)
    (map_fold (fun k v rawLabels => <[k := v]> rawLabels) ∅ labels)
    annotations.

(** Modelled from the spec: [inMap] is not in hyper.go.  "Every key/value
    pair in the predicate's selector must be present and equal in the
    record's labels." *)
Definition inMap (selector target : gmap string string) : bool :=
  map_fold
    (fun k v ok =>
       match target !! k with
       | Some value => String.eqb value v && ok
       | None => false
       end)
    true selector.

(** Insertion of an entry into a sorted slice, behind the entries that are
    strictly older and in front of all others. *)
Fixpoint insertByCreatedAt (x : PodSandbox) (l : list PodSandbox) : list PodSandbox :=
  match l with
  | [] => [x]
  | y :: l' =>
      if ps_CreatedAt x <=? ps_CreatedAt y then x :: y :: l'
      else y :: insertByCreatedAt x l'
  end.

(** Modelled from the spec: [sortByCreatedAt] is not in hyper.go.  "Total
    order by creation timestamp; stable for equal timestamps (ties broken
    by original collection order)"; the direction taken is ascending.  The
    Go function sorts the slice in place; here the sorted slice is the
    result. *)
Fixpoint sortByCreatedAt (items : list PodSandbox) : list PodSandbox :=
  match items with
  | [] => []
  | x :: rest => insertByCreatedAt x (sortByCreatedAt rest)
  end.

(** Modelled from the spec: [buildUserPod] is not in hyper.go.  It builds
    "an engine-facing pod specification from SandboxConfig (translate
    metadata via the Codec and Splitter's merge direction)" and fails with a
    SpecBuildError on "missing required metadata fields". *)
Definition buildUserPod (config : PodSandboxConfig) : UserPod + Error :=
  match cfg_Metadata config with
  | Some m =>
      inl {| up_Id := buildSandboxName m;
             up_Hostname := cfg_Hostname config;
             up_Labels :=
               buildLabelsWithAnnotations (cfg_Labels config)
                                          (cfg_Annotations config) |}
  | None => inr (SpecBuildError "sandbox metadata is missing")
  end.

(* ===================================================================== *)
(** ** The hyperd client and the monad of the runtime's operations *)
(* ===================================================================== *)

(** The operations of [Client] that the runtime consumes.  The client is
    not part of this package's logic: each operation is an arbitrary
    function of its arguments and of the engine's hidden state [W], and
    returns what the Go method returns together with the next state. *)
Record Client (W : Type) : Type := mkClient {
  GetVersion : W -> (string * string * error) * W;
  CreatePod : UserPod -> W -> (string * error) * W;
  StartPod : string -> W -> error * W;
  StopPod : string -> W -> (Z * string * error) * W;
  RemovePod : string -> W -> error * W;
  GetPodInfo : string -> W -> (PodInfo * error) * W;
  GetPodList : W -> (list PodListResult * error) * W
}.
Arguments GetVersion {W} _ _.
Arguments CreatePod {W} _ _ _.
Arguments StartPod {W} _ _ _.
Arguments StopPod {W} _ _ _.
Arguments RemovePod {W} _ _ _.
Arguments GetPodInfo {W} _ _ _.
Arguments GetPodList {W} _ _.

(** One call on the client, for the trace. *)
Inductive Call : Type :=
| CallGetVersion
| CallCreatePod (userpod : UserPod)
| CallStartPod (podID : string)
| CallStopPod (podID : string)
| CallRemovePod (podID : string)
| CallGetPodInfo (podID : string)
| CallGetPodList.

(** An argument of a glog format string. *)
Inductive LogArg : Type :=
| ArgString (s : string)
| ArgInt (z : Z)
| ArgError (e : Error)
| ArgConfig (config : PodSandboxConfig).

Inductive Severity : Type := ErrorLevel | WarningLevel.

(** One glog line: severity, format string and arguments as passed. *)
Record LogEntry : Type := mkLogEntry {
  log_severity : Severity;
  log_format : string;
  log_args : list LogArg
}.

(** What an operation of the runtime can touch: the engine behind the
    client, and two append-only records, the calls made on the client and
    the glog output. *)
Record RT (W : Type) : Type := mkRT {
  world : W;
  calls : list Call;
  glog : list LogEntry
}.
Arguments mkRT {W} _ _ _.
Arguments world {W} _.
Arguments calls {W} _.
Arguments glog {W} _.

(** State monad over [RT W]. *)
Definition M (W A : Type) : Type := RT W -> A * RT W.

#[global] Instance M_ret {W} : MRet (M W) := fun A (a : A) s => (a, s).
#[global] Instance M_bind {W} : MBind (M W) :=
  fun A B (f : A -> M W B) (m : M W A) s => let '(a, s') := m s in f a s'.

(** A call on the client: run it on the engine state, record it. *)
Definition call {W A} (c : Call) (op : W -> A * W) : M W A :=
  fun s =>
    let '(a, w') := op (world s) in
    (a, mkRT w' (calls s ++ [c]) (glog s)).

(** [glog.Errorf] and [glog.Warningf]. *)
Definition Errorf {W} (format : string) (args : list LogArg) : M W unit :=
  fun s => (tt, mkRT (world s) (calls s) (glog s ++ [mkLogEntry ErrorLevel format args])).
Definition Warningf {W} (format : string) (args : list LogArg) : M W unit :=
  fun s => (tt, mkRT (world s) (calls s) (glog s ++ [mkLogEntry WarningLevel format args])).

(** The start of an operation on an engine in state [w]. *)
Definition fresh {W} (w : W) : RT W := mkRT w [] [].

(* ===================================================================== *)
(** ** hyper.go *)
(* ===================================================================== *)

Section Runtime.
Context {W : Type}.
(** [h.client] *)
Variable client : Client W.

(** [Version]. *)
Definition Version : M W (string * string * string * error) :=
  '(version, apiVersion, err) ← call CallGetVersion (GetVersion client);
  match err with
  | Some e =>
      Errorf "Get hyper version failed: %v" [ArgError e];;
      mret (EmptyString, EmptyString, EmptyString, Some e)
  | None => mret (hyperRuntimeName, version, apiVersion, None)
  end.

(** [Status].  The slice [conditions] holds pointers to [runtimeReady]
    and [networkReady], so the assignments made after it is built are seen
    through it: the slice is read here when the function returns. *)
Definition Status : M W (RuntimeStatus * error) :=
  let runtimeReady :=
    {| cond_Type := Some RuntimeReady; cond_Status := Some true;
       cond_Reason := None; cond_Message := None |} in
  let networkReady :=
    {| cond_Type := Some NetworkReady; cond_Status := Some true;
       cond_Reason := None; cond_Message := None |} in
  '(_, _, err) ← call CallGetVersion (GetVersion client);
  let runtimeReady :=
    match err with
    | Some e =>
        {| cond_Type := cond_Type runtimeReady;
           cond_Status := Some false;
           cond_Reason := Some "HyperDaemonNotReady";
           cond_Message :=
             Some ("hyper: failed to get hyper version: " +:+ Error_string e) |}
    | None => runtimeReady
    end in
  mret ({| Conditions := [runtimeReady; networkReady] |}, None).

(** [RunPodSandbox]. *)
Definition RunPodSandbox (config : PodSandboxConfig) : M W (string * error) :=
  match buildUserPod config with
  | inr e =>
      Errorf "Build UserPod for sandbox %q failed: %v" [ArgConfig config; ArgError e];;
      mret (EmptyString, Some e)
  | inl userpod =>
      '(podID, err) ← call (CallCreatePod userpod) (CreatePod client userpod);
      match err with
      | Some e =>
          Errorf "Create pod for sandbox %q failed: %v" [ArgConfig config; ArgError e];;
          mret (EmptyString, Some e)
      | None =>
          err ← call (CallStartPod podID) (StartPod client podID);
          match err with
          | Some e =>
              Errorf "Start pod %q failed: %v" [ArgString podID; ArgError e];;
              removeError ← call (CallRemovePod podID) (RemovePod client podID);
              match removeError with
              | Some re => Warningf "Remove pod %q failed: %v" [ArgError re]
              | None => mret tt
              end;;
              mret (EmptyString, Some e)
          | None => mret (podID, None)
          end
      end
  end.

(** [StopPodSandbox]. *)
Definition StopPodSandbox (podSandboxID : string) : M W error :=
  '(code, cause, err) ← call (CallStopPod podSandboxID) (StopPod client podSandboxID);
  match err with
  | Some e =>
      Errorf "Stop pod %s failed, code: %d, cause: %s, error: %v"
             [ArgString podSandboxID; ArgInt code; ArgString cause; ArgError e];;
      mret (Some e)
  | None => mret None
  end.

(** [DeletePodSandbox]. *)
Definition DeletePodSandbox (podSandboxID : string) : M W error :=
  err ← call (CallRemovePod podSandboxID) (RemovePod client podSandboxID);
  match err with
  | Some e =>
      Errorf "Remove pod %s failed: %v" [ArgString podSandboxID; ArgError e];;
      mret (Some e)
  | None => mret None
  end.

(** [PodSandboxStatus]; a nil result pointer is [None]. *)
Definition PodSandboxStatus (podSandboxID : string)
  : M W (option PodSandboxStatus_t * error) :=
  '(info, err) ← call (CallGetPodInfo podSandboxID) (GetPodInfo client podSandboxID);
  match err with
  | Some e =>
      Errorf "GetPodInfo for %s failed: %v" [ArgString podSandboxID; ArgError e];;
      mret (None, Some e)
  | None =>
      let state := toPodSandboxState (info_Status_Phase info) in
      let podIP :=
        match info_Status_PodIP info with
        | ip :: _ => ip
        | [] => EmptyString
        end in
      let '(podName, podNamespace, podUID, attempt, err) :=
        parseSandboxName (info_PodName info) in
      match err with
      | Some e =>
          Errorf "ParseSandboxName for %s failed: %v"
                 [ArgString (info_PodName info); ArgError e];;
          mret (None, Some e)
      | None =>
          let podSandboxMetadata :=
            {| Name := podName; Uid := podUID;
               Namespace := podNamespace; Attempt := attempt |} in
          let annotations := getAnnotationsFromLabels (info_Spec_Labels info) in
          let kubeletLabels := getKubeletLabels (info_Spec_Labels info) in
          let createdAtNano := mul_int64 (info_CreatedAt info) secondToNano in
          let podStatus :=
            {| pss_Id := podSandboxID;
               pss_Metadata := podSandboxMetadata;
               pss_State := state;
               pss_Network_Ip := podIP;
               pss_CreatedAt := createdAtNano;
               pss_Labels := kubeletLabels;
               pss_Annotations := annotations |} in
          mret (Some podStatus, None)
      end
  end.

(** The three guarded [continue]s of the loop of [ListPodSandbox]: [true]
    when the pod is skipped. *)
Definition filteredOut (filter : option PodSandboxFilter) (pod : PodListResult)
           (state : PodSandBoxState) : bool :=
  match filter with
  | Some f =>
      if bool_decide (flt_Id f <> None) && negb (String.eqb (pod_PodID pod) (GetId f))
      then true
      else if bool_decide (flt_State f <> None)
              && negb (PodSandBoxState_eqb state (GetState f))
      then true
      else match flt_LabelSelector f with
           | Some selector => negb (inMap selector (pod_Labels pod))
           | None => false
           end
  | None => false
  end.

(** The [for _, pod := range pods] loop of [ListPodSandbox] together with
    what follows it; [items] is the slice built so far.  [pods] is a slice
    of pointers, so [&pod.PodID] points into the record of its own pod. *)
Fixpoint ListPodSandbox_loop (filter : option PodSandboxFilter)
         (pods : list PodListResult) (items : list PodSandbox)
  : M W (option (list PodSandbox) * error) :=
  match pods with
  | [] => mret (Some (sortByCreatedAt items), None)
  | pod :: rest =>
      let state := toPodSandboxState (pod_Status pod) in
      let '(podName, podNamespace, podUID, attempt, err) :=
        parseSandboxName (pod_PodName pod) in
      match err with
      | Some e =>
          Errorf "ParseSandboxName for %s failed: %v"
                 [ArgString (pod_PodName pod); ArgError e];;
          mret (None, Some e)
      | None =>
          if filteredOut filter pod state
          then ListPodSandbox_loop filter rest items
          else
            let podSandboxMetadata :=
              {| Name := podName; Uid := podUID;
                 Namespace := podNamespace; Attempt := attempt |} in
            let createdAtNano := mul_int64 (pod_CreatedAt pod) secondToNano in
            ListPodSandbox_loop filter rest
              (items ++ [ {| ps_Id := pod_PodID pod;
                             ps_Metadata := podSandboxMetadata;
                             ps_Labels := pod_Labels pod;
                             ps_State := state;
                             ps_CreatedAt := createdAtNano |} ])
      end
  end.

(** [ListPodSandbox]; a nil result slice is [None]. *)
Definition ListPodSandbox (filter : option PodSandboxFilter)
  : M W (option (list PodSandbox) * error) :=
  '(pods, err) ← call CallGetPodList (GetPodList client);
  match err with
  | Some e =>
      Errorf "GetPodList failed: %v" [ArgError e];;
      mret (None, Some e)
  | None => ListPodSandbox_loop filter pods []
  end.

End Runtime.

(* ===================================================================== *)
(** ** Notions used to state the properties *)
(* ===================================================================== *)

(** The pod ids of the [RemovePod] calls of a trace, in order. *)
Definition removePodCalls (trace : list Call) : list string :=
  omap (fun c => match c with CallRemovePod podID => Some podID | _ => None end) trace.

(** The pod ids of the [StartPod] calls of a trace, in order. *)
Definition startPodCalls (trace : list Call) : list string :=
  omap (fun c => match c with CallStartPod podID => Some podID | _ => None end) trace.

(** The pod ids of the [StopPod] calls of a trace, in order. *)
Definition stopPodCalls (trace : list Call) : list string :=
  omap (fun c => match c with CallStopPod podID => Some podID | _ => None end) trace.

(** The error part of a decoded name. *)
Definition decodeError (name : string) : error := snd (parseSandboxName name).

(** The entry that the loop of [ListPodSandbox] appends for a pod whose
    name decodes. *)
Definition sandboxOf (pod : PodListResult) : PodSandbox :=
  let '(podName, podNamespace, podUID, attempt, _) :=
    parseSandboxName (pod_PodName pod) in
  {| ps_Id := pod_PodID pod;
     ps_Metadata := {| Name := podName; Uid := podUID;
                       Namespace := podNamespace; Attempt := attempt |};
     ps_Labels := pod_Labels pod;
     ps_State := toPodSandboxState (pod_Status pod);
     ps_CreatedAt := mul_int64 (pod_CreatedAt pod) secondToNano |}.

(** The pods of a listing that survive the filter. *)
Definition kept (filter : option PodSandboxFilter) (pod : PodListResult) : bool :=
  negb (filteredOut filter pod (toPodSandboxState (pod_Status pod))).

(** The listing predicate in words: every clause that is present holds of
    the record; an absent clause, or an absent predicate, asks nothing. *)
Definition matchesFilter (filter : option PodSandboxFilter) (R : PodListResult) : Prop :=
  forall f, filter = Some f ->
    (forall id, flt_Id f = Some id -> pod_PodID R = id) /\
    (forall st, flt_State f = Some st -> toPodSandboxState (pod_Status R) = st) /\
    (forall selector, flt_LabelSelector f = Some selector ->
       forall k v, selector !! k = Some v -> pod_Labels R !! k = Some v).

(** Ascending order of creation time. *)
Definition olderOrSame (a b : PodSandbox) : Prop := ps_CreatedAt a <= ps_CreatedAt b.

(** The entries of a slice created at [t], in their order in the slice. *)
Definition createdAt (t : Z) (items : list PodSandbox) : list PodSandbox :=
  List.filter (fun x => ps_CreatedAt x =? t) items.

(** A key carries the reserved annotation marker. *)
Definition marked (k : string) : bool := HasPrefix k fraktiAnnotationLabel.

(* ===================================================================== *)
(** ** Sample engines and inputs, for the instances of the properties *)
(* ===================================================================== *)

(** A client that answers every call with a fixed reply. *)
Definition scriptedClient
           (version : string * string * error)
           (create : string * error) (start : error)
           (stop : Z * string * error) (remove : error)
           (info : PodInfo * error)
           (pods : list PodListResult * error) : Client unit :=
  {| GetVersion := fun w => (version, w);
     CreatePod := fun _ w => (create, w);
     StartPod := fun _ w => (start, w);
     StopPod := fun _ w => (stop, w);
     RemovePod := fun _ w => (remove, w);
     GetPodInfo := fun _ w => (info, w);
     GetPodList := fun w => (pods, w) |}.

Definition sampleInfo (labels : gmap string string) (createdAt : Z) : PodInfo :=
  {| info_PodName := "default_web_9f3c_2";
     info_Spec_Labels := labels;
     info_Status_Phase := "running";
     info_Status_PodIP := ["10.0.0.5"];
     info_CreatedAt := createdAt |}.

Definition samplePod (id name phase : string) (labels : gmap string string)
           (createdAt : Z) : PodListResult :=
  {| pod_PodID := id; pod_PodName := name; pod_Labels := labels;
     pod_CreatedAt := createdAt; pod_Status := phase |}.

(** An engine on which everything works and that holds the given pods. *)
Definition healthyClient (info : PodInfo) (pods : list PodListResult) : Client unit :=
  scriptedClient ("0.6.0", "1.0", None) ("pod-1", None) None
                 (0, EmptyString, None) None (info, None) (pods, None).

(** An engine that creates pods but can neither start nor remove them. *)
Definition stuckClient : Client unit :=
  scriptedClient ("0.6.0", "1.0", None) ("pod-1", None)
                 (Some (EngineError "start failed"))
                 (0, EmptyString, None)
                 (Some (EngineError "remove failed"))
                 (sampleInfo ∅ 0, None) ([], None).

(** An engine whose [StopPod] fails with the given code and cause. *)
Definition stopFailsClient (code : Z) (cause : string) : Client unit :=
  scriptedClient ("0.6.0", "1.0", None) ("pod-1", None) None
                 (code, cause, Some (EngineError "rpc timeout")) None
                 (sampleInfo ∅ 0, None) ([], None).

(** An engine that does not answer the version query. *)
Definition downClient : Client unit :=
  scriptedClient (EmptyString, EmptyString, Some (EngineError "connection refused"))
                 (EmptyString, Some (EngineError "connection refused"))
                 (Some (EngineError "connection refused"))
                 (-1, EmptyString, Some (EngineError "connection refused"))
                 (Some (EngineError "connection refused"))
                 (sampleInfo ∅ 0, Some (EngineError "connection refused"))
                 ([], Some (EngineError "connection refused")).

Definition sampleConfig : PodSandboxConfig :=
  {| cfg_Metadata := Some (mkMetadata "web" "9f3c" "default" 2);
     cfg_Hostname := "web";
     cfg_Labels := {[ "app" := "web" ]};
     cfg_Annotations := {[ "owner" := "ops" ]} |}.

(** Three pods of one engine: a web pod that runs, a paused web pod, a
    running database pod. *)
Definition samplePods : list PodListResult :=
  [samplePod "pod-1" "default_web_9f3c_2" "running" {[ "app" := "web" ]} 30;
   samplePod "pod-2" "default_web_77aa_0" "paused" {[ "app" := "web" ]} 10;
   samplePod "pod-3" "default_db_01bc_1" "running" {[ "app" := "db" ]} 20].

(** Running pods labelled app=web. *)
Definition sampleFilter : PodSandboxFilter :=
  {| flt_Id := None; flt_State := Some READY;
     flt_LabelSelector := Some {[ "app" := "web" ]} |}.

(** A listing entry with only its creation time and id of interest. *)
Definition entryAt (id : string) (t : Z) : PodSandbox :=
  {| ps_Id := id; ps_Metadata := mkMetadata "web" "9f3c" "default" 0;
     ps_Labels := ∅; ps_State := READY; ps_CreatedAt := t |}.

(** The annotation "owner" under its marked key. *)
Definition markedOwner : string := fraktiAnnotationLabel +:+ "owner".

(** An engine map with one label and one marked annotation. *)
Definition sampleRawLabels : gmap string string :=
  {[ "app" := "web"; markedOwner := "ops" ]}.

(* ===================================================================== *)
(** ** Further notions and inputs, for the properties of the operations *)
(* ===================================================================== *)

(** The number of formatting verbs of a glog format string (the formats of
    hyper.go have no escaped percent sign). *)
Fixpoint verbs (format : string) : nat :=
  match format with
  | EmptyString => O
  | String c rest => if Ascii.eqb c "%"%char then S (verbs rest) else verbs rest
  end.

(** A glog line has one argument for each verb of its format. *)
Definition wellFormedLine (entry : LogEntry) : Prop :=
  length (log_args entry) = verbs (log_format entry).

(** A configuration without metadata. *)
Definition configWithoutMetadata : PodSandboxConfig :=
  {| cfg_Metadata := None; cfg_Hostname := "web";
     cfg_Labels := ∅; cfg_Annotations := ∅ |}.

(** A non-nil filter none of whose clauses is set. *)
Definition unsetFilter : PodSandboxFilter :=
  {| flt_Id := None; flt_State := None; flt_LabelSelector := None |}.

(** An engine that removes a pod once: [RemovePod] succeeds while the
    engine state is [true] and fails afterwards. *)
Definition removeOnceClient : Client bool :=
  {| GetVersion := fun (w : bool) => (("0.6.0", "1.0", None), w);
     CreatePod := fun _ w => (("pod-1", None), w);
     StartPod := fun _ w => (None, w);
     StopPod := fun _ w => ((0, EmptyString, None), w);
     RemovePod := fun _ (w : bool) =>
       if w then (None, false) else (Some (EngineError "no such pod"), false);
     GetPodInfo := fun _ w => ((sampleInfo ∅ 0, None), w);
     GetPodList := fun w => (([], None), w) |}.

(** An engine whose [StopPod] succeeds but reports the given code and
    cause. *)
Definition stopReportsClient (code : Z) (cause : string) : Client unit :=
  scriptedClient ("0.6.0", "1.0", None) ("pod-1", None) None
                 (code, cause, None) None (sampleInfo ∅ 0, None) ([], None).

(** Four pods of one engine, in the engine's order, created at 30, 10, 20
    and 10: the second and the fourth are created at the same time. *)
Definition tiedPods : list PodListResult :=
  [samplePod "a" "default_web_9f3c_0" "running" ∅ 30;
   samplePod "b" "default_web_9f3c_1" "running" ∅ 10;
   samplePod "c" "default_web_9f3c_2" "running" ∅ 20;
   samplePod "d" "default_web_9f3c_3" "running" ∅ 10].

(* ===================================================================== *)
(** ** Facts about the string functions *)
(* ===================================================================== *)

Section SplitJoin.
Variable sep : ascii.


Lemma Split_lacks (s : string) :
  lacks sep s = true -> Split s sep = [s].
Proof.
  induction s as [|c s IH]; simpl; [reflexivity|].
  destruct (Ascii.eqb c sep); simpl; [discriminate|].
  intros H. rewrite (IH H). reflexivity.
Qed.

Lemma Split_append_sep (f r : string) :
  lacks sep f = true ->
  Split (f +:+ String sep r) sep = f :: Split r sep.
Proof.
  induction f as [|c f IH]; simpl.
  - intros _. rewrite Ascii.eqb_refl. reflexivity.
  - destruct (Ascii.eqb c sep); simpl; [discriminate|].
    intros H. rewrite (IH H). reflexivity.
Qed.

Lemma Split_Join (fields : list string) :
  fields <> [] ->
  Forall (fun f => lacks sep f = true) fields ->
  Split (Join fields sep) sep = fields.
Proof.
  induction fields as [|f fs IH]; [congruence|].
  intros _ Hall. inversion Hall as [|? ? Hf Hfs]; subst.
  destruct fs as [|g fs].
  - simpl. apply Split_lacks, Hf.
  - change (Join (f :: g :: fs) sep) with (f +:+ String sep (Join (g :: fs) sep)).
    rewrite Split_append_sep by exact Hf.
    rewrite IH; [reflexivity|discriminate|exact Hfs].
Qed.



End SplitJoin.

Lemma HasPrefix_append (p k : string) : HasPrefix (p +:+ k) p = true.
Proof.
  induction p as [|c p IH]; simpl; [reflexivity|].
  rewrite Ascii.eqb_refl. exact IH.
Qed.

Lemma drop_chars_append (p k : string) : drop_chars (String.length p) (p +:+ k) = k.
Proof. induction p as [|c p IH]; simpl; [reflexivity|exact IH]. Qed.

Lemma TrimPrefix_append (p k : string) : TrimPrefix (p +:+ k) p = k.
Proof. unfold TrimPrefix. rewrite HasPrefix_append. apply drop_chars_append. Qed.

Lemma HasPrefix_decompose (s p : string) :
  HasPrefix s p = true -> s = p +:+ TrimPrefix s p.
Proof.
  unfold TrimPrefix. intros H. rewrite H. revert s H.
  induction p as [|c p IH]; intros s H; simpl in *; [reflexivity|].
  destruct s as [|a s]; [discriminate|].
  apply andb_prop in H as [Ha Hs]. apply Ascii.eqb_eq in Ha. subst a.
  change (String c s = String c (p +:+ drop_chars (String.length p) s)).
  f_equal. apply IH. exact Hs.
Qed.

Lemma append_inj_r (p k k' : string) : p +:+ k = p +:+ k' -> k = k'.
Proof.
  induction p as [|c p IH]; simpl; [tauto|].
  intros H. injection H as H. apply IH, H.
Qed.

(* ===================================================================== *)
(** ** The sandbox name codec *)
(* ===================================================================== *)

(** A decimal numeral has no separator in it. *)
Lemma string_of_uint_lacks_separator (d : Decimal.uint) :
  lacks nameSeparator (NilEmpty.string_of_uint d) = true.
Proof. induction d; simpl; auto. Qed.

Lemma FormatUint_lacks_separator (n : N) :
  lacks nameSeparator (FormatUint n) = true.
Proof. apply string_of_uint_lacks_separator. Qed.

Lemma uint_beq_refl (d : Decimal.uint) : Decimal.uint_beq d d = true.
Proof. apply Decimal.internal_uint_dec_lb. reflexivity. Qed.

Lemma parseUint32_FormatUint (n : N) :
  (n <= uint32_max)%N -> parseUint32 (FormatUint n) = Some n.
Proof.
  intros Hn. unfold parseUint32, FormatUint.
  rewrite NilEmpty.usu.
  rewrite <- (DecimalN.Unsigned.to_of (N.to_uint n)) at 1.
  rewrite !DecimalN.Unsigned.of_to, uint_beq_refl. simpl.
  apply N.leb_le in Hn. rewrite Hn. reflexivity.
Qed.


Lemma parseSandboxName_build (m : PodSandboxMetadata) :
  validMetadata m ->
  parseSandboxName (buildSandboxName m) =
    (Name m, Namespace m, Uid m, Attempt m, None).
Proof.
  intros (Hname & Hns & Huid & Hatt).
  unfold parseSandboxName, buildSandboxName.
  rewrite Split_Join.
  - rewrite parseUint32_FormatUint by exact Hatt. reflexivity.
  - discriminate.
  - repeat constructor; auto using FormatUint_lacks_separator.
Qed.


(** Every result of the decoder is either a success or all zero values
    next to [InvalidNameFormat]. *)
Lemma parseSandboxName_cases (t : string) :
  (exists podName podNamespace podUID attempt,
      parseSandboxName t = (podName, podNamespace, podUID, attempt, None)) \/
  parseSandboxName t =
    (EmptyString, EmptyString, EmptyString, 0%N, Some (InvalidNameFormat t)).
Proof.
  unfold parseSandboxName.
  destruct (Split t nameSeparator) as [|f1 [|f2 [|f3 [|f4 [|f5 fs]]]]]; auto.
  destruct (parseUint32 f4); eauto 6.
Qed.




Lemma parse_error_not_encoded (t : string) (e : Error) :
  snd (parseSandboxName t) = Some e ->
  forall m, validMetadata m -> buildSandboxName m <> t.
Proof.
  intros Herr m Hm <-. rewrite (parseSandboxName_build m Hm) in Herr. discriminate.
Qed.



(* ===================================================================== *)
(** ** Running the operations *)
(* ===================================================================== *)

(** Unfolds the monad down to the client's functions. *)
Ltac run_monad :=
  unfold mbind, mret, M_bind, M_ret, call, Errorf, Warningf, fresh; simpl.

Lemma call_run {W A} (c : Call) (op : W -> A * W) (s : RT W) :
  call c op s = (fst (op (world s)), mkRT (snd (op (world s))) (calls s ++ [c]) (glog s)).
Proof. unfold call. destruct (op (world s)); reflexivity. Qed.

(* ===================================================================== *)
(** ** RunPodSandbox: cleanup after a failed start *)
(* ===================================================================== *)

Section RunPodSandboxFacts.
Context {W : Type}.
Variable client : Client W.
Variables (config : PodSandboxConfig) (userpod : UserPod) (w : W).
Hypothesis Hbuild : buildUserPod config = inl userpod.

Lemma RunPodSandbox_create_fails (podID : string) (e : Error) (w1 : W) :
  CreatePod client userpod w = ((podID, Some e), w1) ->
  RunPodSandbox client config (fresh w) =
    ((EmptyString, Some e),
     mkRT w1 [CallCreatePod userpod]
          [mkLogEntry ErrorLevel "Create pod for sandbox %q failed: %v"
                      [ArgConfig config; ArgError e]]).
Proof.
  intros Hc. unfold RunPodSandbox. rewrite Hbuild. run_monad.
  rewrite Hc. reflexivity.
Qed.

Lemma RunPodSandbox_start_fails (podID : string) (e : Error) (w1 w2 : W) :
  CreatePod client userpod w = ((podID, None), w1) ->
  StartPod client podID w1 = (Some e, w2) ->
  fst (RunPodSandbox client config (fresh w)) = (EmptyString, Some e) /\
  calls (snd (RunPodSandbox client config (fresh w))) =
    [CallCreatePod userpod; CallStartPod podID; CallRemovePod podID].
Proof.
  intros Hc Hs. unfold RunPodSandbox. rewrite Hbuild. run_monad.
  rewrite Hc. simpl. rewrite Hs. simpl.
  destruct (RemovePod client podID w2) as [[re|] w3]; simpl; auto.
Qed.

Lemma RunPodSandbox_succeeds (podID : string) (w1 w2 : W) :
  CreatePod client userpod w = ((podID, None), w1) ->
  StartPod client podID w1 = (None, w2) ->
  RunPodSandbox client config (fresh w) =
    ((podID, None), mkRT w2 [CallCreatePod userpod; CallStartPod podID] []).
Proof.
  intros Hc Hs. unfold RunPodSandbox. rewrite Hbuild. run_monad.
  rewrite Hc. simpl. rewrite Hs. reflexivity.
Qed.

End RunPodSandboxFacts.

(** C2.  Whatever the client does: when [CreatePod] succeeds with id
    [podID] and the following [StartPod] fails with [e], the calls made on
    the client are exactly [CreatePod], [StartPod podID], [RemovePod podID]
    (so [RemovePod] is called once, with the created id) and the caller gets
    the empty id and the start error [e], whether or not the removal fails;
    when [CreatePod] itself fails with [e], the caller gets [e] and no
    [StartPod] or [RemovePod] call is made. *)
Theorem RunPodSandbox_cleanup {W : Type} (client : Client W)
        (config : PodSandboxConfig) (userpod : UserPod) (w : W) :
  buildUserPod config = inl userpod ->
  (forall podID e w1 w2,
      CreatePod client userpod w = ((podID, None), w1) ->
      StartPod client podID w1 = (Some e, w2) ->
      fst (RunPodSandbox client config (fresh w)) = (EmptyString, Some e) /\
      removePodCalls (calls (snd (RunPodSandbox client config (fresh w)))) = [podID] /\
      calls (snd (RunPodSandbox client config (fresh w))) =
        [CallCreatePod userpod; CallStartPod podID; CallRemovePod podID])
  /\
  (forall podID e w1,
      CreatePod client userpod w = ((podID, Some e), w1) ->
      fst (RunPodSandbox client config (fresh w)) = (EmptyString, Some e) /\
      startPodCalls (calls (snd (RunPodSandbox client config (fresh w)))) = [] /\
      removePodCalls (calls (snd (RunPodSandbox client config (fresh w)))) = []).
Proof.
  intros Hbuild. split.
  - intros podID e w1 w2 Hc Hs.
    destruct (RunPodSandbox_start_fails client config userpod w Hbuild podID e w1 w2 Hc Hs)
      as [Hres Htrace].
    rewrite Htrace. auto.
  - intros podID e w1 Hc.
    rewrite (RunPodSandbox_create_fails client config userpod w Hbuild podID e w1 Hc).
    auto.
Qed.

(** The theorem on an engine that creates the pod, fails to start it and
    fails to remove it as well. *)
Lemma RunPodSandbox_cleanup_witness :
  fst (RunPodSandbox stuckClient sampleConfig (fresh tt)) =
    (EmptyString, Some (EngineError "start failed"))
  /\ removePodCalls (calls (snd (RunPodSandbox stuckClient sampleConfig (fresh tt))))
     = ["pod-1"].
Proof.
  destruct (RunPodSandbox_cleanup stuckClient sampleConfig
              {| up_Id := "default_web_9f3c_2"; up_Hostname := "web";
                 up_Labels := buildLabelsWithAnnotations {[ "app" := "web" ]}
                                                         {[ "owner" := "ops" ]} |}
              tt eq_refl) as [Hstart _].
  destruct (Hstart "pod-1" (EngineError "start failed") tt tt eq_refl eq_refl)
    as (Hres & Hremove & _).
  split; [exact Hres|exact Hremove].
Defined.

(* ===================================================================== *)
(** ** StopPodSandbox *)
(* ===================================================================== *)

Lemma StopPodSandbox_run {W : Type} (client : Client W) (podSandboxID : string)
      (w w' : W) (code : Z) (cause : string) (err : error) :
  StopPod client podSandboxID w = ((code, cause, err), w') ->
  StopPodSandbox client podSandboxID (fresh w) =
    (err,
     mkRT w' [CallStopPod podSandboxID]
          match err with
          | Some e =>
              [mkLogEntry ErrorLevel
                          "Stop pod %s failed, code: %d, cause: %s, error: %v"
                          [ArgString podSandboxID; ArgInt code;
                           ArgString cause; ArgError e]]
          | None => []
          end).
Proof.
  intros Hstop. unfold StopPodSandbox. run_monad. rewrite Hstop.
  destruct err; reflexivity.
Qed.

(** C7, as the code has it.  When the engine's stop call fails with code
    [code], cause [cause] and error [e], [StopPodSandbox] returns exactly
    [e]; [StopPod] is called once and nothing else is called (no retry); the
    code and the cause go to the error log, in one line together with the
    pod id and [e], and are not part of what is returned. *)
Theorem StopPodSandbox_failure {W : Type} (client : Client W)
        (podSandboxID : string) (w w' : W) (code : Z) (cause : string) (e : Error) :
  StopPod client podSandboxID w = ((code, cause, Some e), w') ->
  fst (StopPodSandbox client podSandboxID (fresh w)) = Some e
  /\ calls (snd (StopPodSandbox client podSandboxID (fresh w))) =
       [CallStopPod podSandboxID]
  /\ stopPodCalls (calls (snd (StopPodSandbox client podSandboxID (fresh w)))) =
       [podSandboxID]
  /\ glog (snd (StopPodSandbox client podSandboxID (fresh w))) =
       [mkLogEntry ErrorLevel "Stop pod %s failed, code: %d, cause: %s, error: %v"
                   [ArgString podSandboxID; ArgInt code; ArgString cause; ArgError e]].
Proof.
  intros Hstop. rewrite (StopPodSandbox_run client podSandboxID w w' code cause _ Hstop).
  simpl. auto.
Qed.

Lemma StopPodSandbox_failure_witness :
  fst (StopPodSandbox (stopFailsClient 137 "killed") "pod-1" (fresh tt)) =
    Some (EngineError "rpc timeout")
  /\ stopPodCalls (calls (snd (StopPodSandbox (stopFailsClient 137 "killed")
                                               "pod-1" (fresh tt)))) = ["pod-1"].
Proof.
  destruct (StopPodSandbox_failure (stopFailsClient 137 "killed") "pod-1" tt tt
              137 "killed" (EngineError "rpc timeout") eq_refl)
    as (Hres & _ & Hcalls & _).
  split; [exact Hres|exact Hcalls].
Defined.

(** Against C7 as it is worded: two engines fail the stop of the same pod
    with the same error but report different codes and causes, and the
    caller of [StopPodSandbox] gets the same value from both, so the
    returned error does not carry the code and the cause. *)
Lemma StopPodSandbox_returns_bare_error :
  fst (StopPod (stopFailsClient 137 "killed") "pod-1" tt) <>
  fst (StopPod (stopFailsClient 1 "not found") "pod-1" tt)
  /\ fst (StopPodSandbox (stopFailsClient 137 "killed") "pod-1" (fresh tt)) =
     fst (StopPodSandbox (stopFailsClient 1 "not found") "pod-1" (fresh tt))
  /\ ~ (exists carried : Error -> Z * string,
          forall code cause,
            match fst (StopPodSandbox (stopFailsClient code cause) "pod-1" (fresh tt)) with
            | Some e => carried e = (code, cause)
            | None => False
            end).
Proof.
  split; [discriminate|]. split; [reflexivity|].
  intros [carried H].
  pose proof (H 137 "killed") as H1. pose proof (H 1 "not found") as H2.
  simpl in H1, H2. congruence.
Qed.

(* ===================================================================== *)
(** ** Status *)
(* ===================================================================== *)

(** C10.  [Status] never fails: whatever the version query does, the error
    is nil and the status has exactly two conditions, [RuntimeReady] then
    [NetworkReady]; [NetworkReady] is always true; [RuntimeReady] is true
    exactly when the version query succeeded, and false with reason
    HyperDaemonNotReady and a message quoting the error when it failed.
    The version is queried once. *)
Theorem Status_never_fails {W : Type} (client : Client W) (w : W) :
  let verr := snd (fst (GetVersion client w)) in
  let result := fst (Status client (fresh w)) in
  snd result = None
  /\ (exists runtimeReady networkReady,
         Conditions (fst result) = [runtimeReady; networkReady]
         /\ cond_Type runtimeReady = Some RuntimeReady
         /\ cond_Type networkReady = Some NetworkReady
         /\ cond_Status networkReady = Some true
         /\ (cond_Status runtimeReady = Some true <-> verr = None)
         /\ (cond_Status runtimeReady = Some true \/ cond_Status runtimeReady = Some false)
         /\ (verr = None ->
             cond_Reason runtimeReady = None /\ cond_Message runtimeReady = None)
         /\ (forall e, verr = Some e ->
               cond_Status runtimeReady = Some false
               /\ cond_Reason runtimeReady = Some "HyperDaemonNotReady"
               /\ cond_Message runtimeReady =
                    Some ("hyper: failed to get hyper version: " +:+ Error_string e)))
  /\ length (Conditions (fst result)) = 2%nat
  /\ calls (snd (Status client (fresh w))) = [CallGetVersion].
Proof.
  unfold Status. run_monad.
  destruct (GetVersion client w) as [[[version apiVersion] [e|]] w']; simpl.
  - split; [reflexivity|]. split; [|split; reflexivity].
    eexists _, _. split; [reflexivity|]. simpl.
    repeat split; try reflexivity; try discriminate; auto; congruence.
  - split; [reflexivity|]. split; [|split; reflexivity].
    eexists _, _. split; [reflexivity|]. simpl.
    repeat split; try reflexivity; try discriminate; auto.
Qed.

(** The theorem on an engine that is down, and on one that answers. *)
Lemma Status_never_fails_witness :
  snd (fst (Status downClient (fresh tt))) = None
  /\ snd (fst (Status (healthyClient (sampleInfo ∅ 0) []) (fresh tt))) = None.
Proof.
  split.
  - exact (proj1 (Status_never_fails downClient tt)).
  - exact (proj1 (Status_never_fails (healthyClient (sampleInfo ∅ 0) []) tt)).
Defined.

(* ===================================================================== *)
(** ** The label selector *)
(* ===================================================================== *)

Lemma inMap_spec (selector target : gmap string string) :
  inMap selector target = true <->
  (forall k v, selector !! k = Some v -> target !! k = Some v).
Proof.
  unfold inMap.
  apply (map_fold_weak_ind
           (fun (ok : bool) (m : gmap string string) =>
              ok = true <-> (forall k v, m !! k = Some v -> target !! k = Some v))).
  - split; [|reflexivity]. intros _ k v Hk. rewrite lookup_empty in Hk. discriminate.
  - intros i x m ok Hfresh IH. split.
    + intros Hok k v Hk.
      destruct (target !! i) as [value|] eqn:Hti; [|discriminate].
      apply andb_prop in Hok as [Hval Hrest]. apply String.eqb_eq in Hval. subst value.
      destruct (decide (i = k)) as [->|Hne].
      * rewrite lookup_insert_eq in Hk. congruence.
      * rewrite lookup_insert_ne in Hk by exact Hne. apply IH; assumption.
    + intros Hall.
      rewrite (Hall i x) by apply lookup_insert_eq.
      rewrite String.eqb_refl. simpl. apply IH.
      intros k v Hk. apply Hall.
      rewrite lookup_insert_ne; [exact Hk|]. intros ->. congruence.
Qed.

Lemma PodSandBoxState_eqb_eq (a b : PodSandBoxState) :
  PodSandBoxState_eqb a b = true <-> a = b.
Proof. destruct a, b; simpl; split; congruence. Qed.

Lemma id_clause (fid : option string) (x : string) :
  bool_decide (fid <> None)
  && negb (String.eqb x match fid with Some id => id | None => EmptyString end) = false
  <-> (forall id, fid = Some id -> x = id).
Proof.
  destruct fid as [id|]; simpl.
  - rewrite ?bool_decide_eq_true_2 by discriminate. simpl.
    destruct (String.eqb_spec x id); simpl; split; try congruence.
    intros H. exfalso. auto.
  - split; [discriminate|reflexivity].
Qed.

Lemma state_clause (fstate : option PodSandBoxState) (x : PodSandBoxState) :
  bool_decide (fstate <> None)
  && negb (PodSandBoxState_eqb x match fstate with Some s => s | None => READY end) = false
  <-> (forall st, fstate = Some st -> x = st).
Proof.
  destruct fstate as [st|]; simpl.
  - rewrite ?bool_decide_eq_true_2 by discriminate. simpl.
    destruct x, st; simpl; split; try congruence; intros H; exfalso;
      specialize (H _ eq_refl); discriminate.
  - split; [discriminate|reflexivity].
Qed.

Lemma selector_clause (fsel : option (gmap string string)) (labels : gmap string string) :
  match fsel with Some selector => negb (inMap selector labels) | None => false end = false
  <-> (forall selector, fsel = Some selector ->
         forall k v, selector !! k = Some v -> labels !! k = Some v).
Proof.
  destruct fsel as [selector|].
  - rewrite negb_false_iff, inMap_spec. split.
    + intros H sel [= <-]. exact H.
    + intros H. exact (H _ eq_refl).
  - split; [discriminate|reflexivity].
Qed.

Lemma kept_matches (filter : option PodSandboxFilter) (R : PodListResult) :
  kept filter R = true <-> matchesFilter filter R.
Proof.
  unfold kept, filteredOut, matchesFilter, GetId, GetState.
  destruct filter as [f|]; [|split; [intros _ f [=]|reflexivity]].
  rewrite negb_true_iff.
  pose proof (id_clause (flt_Id f) (pod_PodID R)) as Hid.
  pose proof (state_clause (flt_State f) (toPodSandboxState (pod_Status R))) as Hst.
  pose proof (selector_clause (flt_LabelSelector f) (pod_Labels R)) as Hsel.
  split.
  - intros Hkept f' [= <-].
    destruct (bool_decide (flt_Id f <> None) && _); [discriminate|].
    destruct (bool_decide (flt_State f <> None) && _); [discriminate|].
    split; [apply Hid; reflexivity|].
    split; [apply Hst; reflexivity|apply Hsel; exact Hkept].
  - intros Hm. destruct (Hm f eq_refl) as (H1 & H2 & H3).
    rewrite (proj2 Hid H1), (proj2 Hst H2). apply Hsel, H3.
Qed.

(* ===================================================================== *)
(** ** The loop of ListPodSandbox *)
(* ===================================================================== *)

Lemma sandboxOf_decoded (pod : PodListResult)
      (podName podNamespace podUID : string) (attempt : N) (err : error) :
  parseSandboxName (pod_PodName pod) = (podName, podNamespace, podUID, attempt, err) ->
  sandboxOf pod =
    {| ps_Id := pod_PodID pod;
       ps_Metadata := {| Name := podName; Uid := podUID;
                         Namespace := podNamespace; Attempt := attempt |};
       ps_Labels := pod_Labels pod;
       ps_State := toPodSandboxState (pod_Status pod);
       ps_CreatedAt := mul_int64 (pod_CreatedAt pod) secondToNano |}.
Proof. intros H. unfold sandboxOf. rewrite H. reflexivity. Qed.

Lemma decodeError_cases (name : string) :
  (exists podName podNamespace podUID attempt,
      parseSandboxName name = (podName, podNamespace, podUID, attempt, None)) /\
  decodeError name = None
  \/
  parseSandboxName name =
    (EmptyString, EmptyString, EmptyString, 0%N, Some (InvalidNameFormat name)) /\
  decodeError name = Some (InvalidNameFormat name).
Proof.
  unfold decodeError.
  destruct (parseSandboxName_cases name) as [(n & ns & u & a & H)|H]; rewrite H.
  - left. split; [eauto 6|reflexivity].
  - right. split; reflexivity.
Qed.

Lemma decodeError_dec (name : string) :
  {decodeError name = None} + {decodeError name <> None}.
Proof. destruct (decodeError name); [right; discriminate|left; reflexivity]. Qed.

Section ListLoop.
Context {W : Type}.
Variable filter : option PodSandboxFilter.

Lemma ListPodSandbox_loop_ok (pods : list PodListResult) :
  Forall (fun pod => decodeError (pod_PodName pod) = None) pods ->
  forall (items : list PodSandbox) (s : RT W),
    ListPodSandbox_loop filter pods items s =
      ((Some (sortByCreatedAt
                (items ++ List.map sandboxOf (List.filter (kept filter) pods))%list),
        None), s).
Proof.
  induction 1 as [|pod pods Hpod Hpods IH]; intros items s.
  - simpl. rewrite app_nil_r. reflexivity.
  - simpl ListPodSandbox_loop.
    destruct (decodeError_cases (pod_PodName pod))
      as [[(n & ns & u & a & Hparse) _]|[_ Herr]]; [|congruence].
    rewrite Hparse. unfold kept at 1. simpl List.filter.
    unfold kept.
    destruct (filteredOut filter pod (toPodSandboxState (pod_Status pod))); simpl.
    + apply IH.
    + rewrite IH. rewrite <- app_assoc. simpl.
      rewrite (sandboxOf_decoded pod n ns u a None Hparse). reflexivity.
Qed.

Lemma ListPodSandbox_loop_error (pods : list PodListResult) :
  Exists (fun pod => decodeError (pod_PodName pod) <> None) pods ->
  forall (items : list PodSandbox) (s : RT W),
  exists pod,
    In pod pods /\
    decodeError (pod_PodName pod) = Some (InvalidNameFormat (pod_PodName pod)) /\
    fst (ListPodSandbox_loop filter pods items s) =
      (None, Some (InvalidNameFormat (pod_PodName pod))).
Proof.
  induction pods as [|pod pods IH]; intros Hex items s.
  - inversion Hex.
  - simpl ListPodSandbox_loop.
    destruct (decodeError_cases (pod_PodName pod))
      as [[(n & ns & u & a & Hparse) Hok]|[Hparse Herr]]; rewrite Hparse.
    + assert (Hex' : Exists (fun pod => decodeError (pod_PodName pod) <> None) pods).
      { inversion Hex; subst; [congruence|assumption]. }
      destruct (filteredOut filter pod (toPodSandboxState (pod_Status pod))).
      * destruct (IH Hex' items s) as (p & Hin & Hres).
        exists p. split; [right; exact Hin|exact Hres].
      * destruct (IH Hex' (items ++ [ {| ps_Id := pod_PodID pod;
             ps_Metadata := {| Name := n; Uid := u; Namespace := ns; Attempt := a |};
             ps_Labels := pod_Labels pod;
             ps_State := toPodSandboxState (pod_Status pod);
             ps_CreatedAt := mul_int64 (pod_CreatedAt pod) secondToNano |} ])%list s)
          as (p & Hin & Hres).
        exists p. split; [right; exact Hin|exact Hres].
    + exists pod. split; [left; reflexivity|]. split; [exact Herr|reflexivity].
Qed.

End ListLoop.

Lemma ListPodSandbox_ok {W : Type} (client : Client W)
      (filter : option PodSandboxFilter) (w w' : W) (pods : list PodListResult) :
  GetPodList client w = ((pods, None), w') ->
  Forall (fun pod => decodeError (pod_PodName pod) = None) pods ->
  ListPodSandbox client filter (fresh w) =
    ((Some (sortByCreatedAt (List.map sandboxOf (List.filter (kept filter) pods))),
      None),
     mkRT w' [CallGetPodList] []).
Proof.
  intros Hlist Hall. unfold ListPodSandbox. run_monad. rewrite Hlist.
  apply (ListPodSandbox_loop_ok filter pods Hall []).
Qed.

(** What a listing that returns a slice says about the engine's reply. *)
Lemma ListPodSandbox_inv {W : Type} (client : Client W)
      (filter : option PodSandboxFilter) (w : W) (items : list PodSandbox) (err : error) :
  fst (ListPodSandbox client filter (fresh w)) = (Some items, err) ->
  err = None /\
  snd (fst (GetPodList client w)) = None /\
  Forall (fun pod => decodeError (pod_PodName pod) = None)
         (fst (fst (GetPodList client w))) /\
  items = sortByCreatedAt
            (List.map sandboxOf
                      (List.filter (kept filter) (fst (fst (GetPodList client w))))).
Proof.
  destruct (GetPodList client w) as [[pods [e|]] w'] eqn:Hlist; simpl.
  - unfold ListPodSandbox. run_monad. rewrite Hlist. simpl. discriminate.
  - intros Hres.
    destruct (Forall_Exists_dec (fun pod => decodeError (pod_PodName pod) = None)
                (fun pod => decodeError (pod_PodName pod) <> None)
                (fun pod => decodeError_dec (pod_PodName pod)) pods)
      as [Hall|Hex].
    + rewrite (ListPodSandbox_ok client filter w w' pods Hlist Hall) in Hres.
      simpl in Hres. injection Hres as <- <-. auto.
    + exfalso. revert Hres. unfold ListPodSandbox. run_monad. rewrite Hlist.
      destruct (ListPodSandbox_loop_error (W:=W) filter pods Hex [] (mkRT w' [CallGetPodList] []))
        as (p & _ & _ & Hp).
      rewrite Hp. discriminate.
Qed.

(* ===================================================================== *)
(** ** sortByCreatedAt *)
(* ===================================================================== *)

Lemma insertByCreatedAt_perm (x : PodSandbox) (l : list PodSandbox) :
  Permutation (x :: l) (insertByCreatedAt x l).
Proof.
  induction l as [|y l IH]; simpl; [reflexivity|].
  destruct (ps_CreatedAt x <=? ps_CreatedAt y); [reflexivity|].
  rewrite perm_swap. constructor. exact IH.
Qed.

Lemma sortByCreatedAt_perm (l : list PodSandbox) :
  Permutation l (sortByCreatedAt l).
Proof.
  induction l as [|x l IH]; simpl; [constructor|].
  rewrite <- insertByCreatedAt_perm. constructor. exact IH.
Qed.

Lemma insertByCreatedAt_HdRel (a x : PodSandbox) (l : list PodSandbox) :
  olderOrSame a x -> HdRel olderOrSame a l ->
  HdRel olderOrSame a (insertByCreatedAt x l).
Proof.
  intros Hax Hal. destruct l as [|y l]; simpl; [constructor; exact Hax|].
  destruct (ps_CreatedAt x <=? ps_CreatedAt y); constructor.
  - exact Hax.
  - inversion Hal; assumption.
Qed.

Lemma insertByCreatedAt_sorted (x : PodSandbox) (l : list PodSandbox) :
  Sorted olderOrSame l -> Sorted olderOrSame (insertByCreatedAt x l).
Proof.
  induction l as [|y l IH]; simpl; intros Hs.
  - repeat constructor.
  - destruct (Z.leb_spec (ps_CreatedAt x) (ps_CreatedAt y)) as [Hle|Hgt].
    + constructor; [exact Hs|]. constructor. exact Hle.
    + inversion Hs as [|? ? Hl Hhd]; subst. constructor; [apply IH, Hl|].
      apply insertByCreatedAt_HdRel; [|exact Hhd].
      unfold olderOrSame. lia.
Qed.

Lemma sortByCreatedAt_sorted (l : list PodSandbox) :
  Sorted olderOrSame (sortByCreatedAt l).
Proof.
  induction l as [|x l IH]; simpl; [constructor|].
  apply insertByCreatedAt_sorted, IH.
Qed.

(** Insertion does not move an entry past another one created at the same
    time. *)
Lemma createdAt_insert (t : Z) (x : PodSandbox) (l : list PodSandbox) :
  createdAt t (insertByCreatedAt x l) = createdAt t (x :: l).
Proof.
  induction l as [|y l IH]; [reflexivity|].
  simpl insertByCreatedAt.
  destruct (Z.leb_spec (ps_CreatedAt x) (ps_CreatedAt y)) as [Hle|Hgt]; [reflexivity|].
  change (createdAt t (y :: insertByCreatedAt x l)) with
    (if ps_CreatedAt y =? t then y :: createdAt t (insertByCreatedAt x l)
     else createdAt t (insertByCreatedAt x l)).
  rewrite IH. unfold createdAt. simpl.
  destruct (Z.eqb_spec (ps_CreatedAt y) t), (Z.eqb_spec (ps_CreatedAt x) t);
    try reflexivity.
  lia.
Qed.

Lemma createdAt_sort (t : Z) (l : list PodSandbox) :
  createdAt t (sortByCreatedAt l) = createdAt t l.
Proof.
  induction l as [|x l IH]; [reflexivity|].
  simpl sortByCreatedAt. rewrite createdAt_insert.
  unfold createdAt in *. simpl. rewrite IH. reflexivity.
Qed.

Lemma In_sortByCreatedAt (x : PodSandbox) (l : list PodSandbox) :
  In x (sortByCreatedAt l) <-> In x l.
Proof.
  split; apply Permutation_in; [symmetry|]; apply sortByCreatedAt_perm.
Qed.

(** The result of the loop does not depend on what was logged or called
    before. *)
Lemma ListPodSandbox_loop_result {W : Type} (filter : option PodSandboxFilter)
      (pods : list PodListResult) :
  forall (items : list PodSandbox) (s s' : RT W),
    fst (ListPodSandbox_loop filter pods items s) =
    fst (ListPodSandbox_loop filter pods items s').
Proof.
  induction pods as [|pod pods IH]; intros items s s'; [reflexivity|].
  simpl ListPodSandbox_loop.
  destruct (parseSandboxName (pod_PodName pod)) as [[[[n ns] u] a] [e|]].
  - reflexivity.
  - destruct (filteredOut filter pod (toPodSandboxState (pod_Status pod))); apply IH.
Qed.

(** C3.  When the engine's pod list holds a record whose name does not
    decode, [ListPodSandbox] returns a nil slice and the decode error of
    such a record, whatever the filter is (in particular whether or not the
    filter would have kept that record). *)
Theorem ListPodSandbox_decode_failure {W : Type} (client : Client W)
        (filter : option PodSandboxFilter) (w w' : W) (pods : list PodListResult) :
  GetPodList client w = ((pods, None), w') ->
  Exists (fun pod => decodeError (pod_PodName pod) <> None) pods ->
  exists pod,
    In pod pods /\
    decodeError (pod_PodName pod) = Some (InvalidNameFormat (pod_PodName pod)) /\
    fst (ListPodSandbox client filter (fresh w)) =
      (None, Some (InvalidNameFormat (pod_PodName pod))).
Proof.
  intros Hlist Hex.
  destruct (ListPodSandbox_loop_error (W:=W) filter pods Hex []
              (mkRT w' [CallGetPodList] [])) as (pod & Hin & Herr & Hres).
  exists pod. split; [exact Hin|]. split; [exact Herr|].
  unfold ListPodSandbox. run_monad. rewrite Hlist. exact Hres.
Qed.

(** The theorem on a list of two pods, the second with a name of three
    fields, under a filter that selects the first pod only. *)
Lemma ListPodSandbox_decode_failure_witness :
  fst (ListPodSandbox
         (healthyClient (sampleInfo ∅ 0)
            [samplePod "pod-1" "default_web_9f3c_2" "running" ∅ 10;
             samplePod "pod-2" "default_db_1" "running" ∅ 20])
         (Some (mkFilter (Some "pod-1") None None)) (fresh tt)) =
    (None, Some (InvalidNameFormat "default_db_1")).
Proof.
  destruct (ListPodSandbox_decode_failure
              (healthyClient (sampleInfo ∅ 0)
                 [samplePod "pod-1" "default_web_9f3c_2" "running" ∅ 10;
                  samplePod "pod-2" "default_db_1" "running" ∅ 20])
              (Some (mkFilter (Some "pod-1") None None)) tt tt _ eq_refl)
    as (pod & Hin & Herr & Hres).
  - right. left. vm_compute. discriminate.
  - rewrite Hres. destruct Hin as [<-|[<-|[]]].
    + vm_compute in Herr. discriminate.
    + reflexivity.
Defined.

(** C6.  When [ListPodSandbox] returns a slice, it is made of the entries
    of exactly the engine records that satisfy the filter, where a record
    satisfies the filter when every clause that is present holds: the id
    clause asks the record's engine id to equal it, the state clause asks
    the state mapped from the record's phase to equal it, the label
    selector asks each of its key/value pairs to be in the record's labels
    with the same value; an absent clause or an absent filter asks
    nothing. *)
Theorem ListPodSandbox_filter {W : Type} (client : Client W)
        (filter : option PodSandboxFilter) (w : W)
        (items : list PodSandbox) (err : error) :
  fst (ListPodSandbox client filter (fresh w)) = (Some items, err) ->
  let pods := fst (fst (GetPodList client w)) in
  items = sortByCreatedAt (List.map sandboxOf (List.filter (kept filter) pods))
  /\ (forall R, kept filter R = true <-> matchesFilter filter R)
  /\ (forall entry,
        In entry items <->
        exists R, In R pods /\ matchesFilter filter R /\ entry = sandboxOf R)
  /\ (forall R, In R pods -> matchesFilter filter R -> In (sandboxOf R) items)
  /\ (filter = None ->
      items = sortByCreatedAt (List.map sandboxOf pods)).
Proof.
  intros Hres pods.
  destruct (ListPodSandbox_inv client filter w items err Hres) as (_ & _ & _ & Hitems).
  fold pods in Hitems.
  assert (Hin : forall entry,
             In entry items <->
             exists R, In R pods /\ matchesFilter filter R /\ entry = sandboxOf R).
  { intros entry. rewrite Hitems, In_sortByCreatedAt, in_map_iff. split.
    - intros (R & <- & HR). apply filter_In in HR as [HR Hk].
      exists R. split; [exact HR|]. split; [apply kept_matches, Hk|reflexivity].
    - intros (R & HR & Hm & ->). exists R. split; [reflexivity|].
      apply filter_In. split; [exact HR|apply kept_matches, Hm]. }
  split; [exact Hitems|]. split; [intros R; apply kept_matches|].
  split; [exact Hin|]. split.
  - intros R HR Hm. apply Hin. exists R. auto.
  - intros ->. rewrite Hitems. f_equal. f_equal.
    clear. induction pods as [|p ps IH]; [reflexivity|]. simpl. rewrite IH. reflexivity.
Qed.

(** The theorem on three pods and the filter "running and app=web": only
    the first pod is listed. *)
Lemma ListPodSandbox_filter_witness :
  exists items,
    fst (ListPodSandbox (healthyClient (sampleInfo ∅ 0) samplePods)
                        (Some sampleFilter) (fresh tt)) = (Some items, None)
    /\ List.map ps_Id items = ["pod-1"]
    /\ (forall entry,
          In entry items <->
          exists R, In R samplePods /\ matchesFilter (Some sampleFilter) R
                    /\ entry = sandboxOf R).
Proof.
  eexists. split; [reflexivity|]. split; [reflexivity|].
  exact (proj1 (proj2 (proj2
           (ListPodSandbox_filter (healthyClient (sampleInfo ∅ 0) samplePods)
              (Some sampleFilter) tt _ None eq_refl)))).
Defined.

(** C9.  [ListPodSandbox] returns its entries sorted: when the engine
    lists its pods and every name decodes, the call returns, with a nil
    error, the entries of the pods the filter keeps, sorted by
    [sortByCreatedAt].  That slice is in ascending order of creation time,
    it is a permutation of the entries in the engine's order, and entries
    created at the same time keep the order the engine gave them (for every
    time [t], the entries created at [t] come in the same order before and
    after).  [sortByCreatedAt] does so on every slice.  The result depends
    only on the engine's reply, so two listings of the same pods are
    equal. *)
Theorem sortByCreatedAt_stable (items : list PodSandbox) :
  Sorted olderOrSame (sortByCreatedAt items)
  /\ Permutation items (sortByCreatedAt items)
  /\ (forall t, createdAt t (sortByCreatedAt items) = createdAt t items)
  /\ (forall {W : Type} (client : Client W) (filter : option PodSandboxFilter)
             (w w' : W) (pods : list PodListResult),
        GetPodList client w = ((pods, None), w') ->
        Forall (fun pod => decodeError (pod_PodName pod) = None) pods ->
        let entries := List.map sandboxOf (List.filter (kept filter) pods) in
        exists result,
          fst (ListPodSandbox client filter (fresh w)) = (Some result, None)
          /\ result = sortByCreatedAt entries
          /\ Sorted olderOrSame result
          /\ Permutation entries result
          /\ (forall t, createdAt t result = createdAt t entries))
  /\ (forall {W : Type} (client : Client W) (filter : option PodSandboxFilter)
             (w : W) (err : error),
        fst (ListPodSandbox client filter (fresh w)) = (Some items, err) ->
        Sorted olderOrSame items /\
        forall t,
          createdAt t items =
          createdAt t (List.map sandboxOf
                         (List.filter (kept filter) (fst (fst (GetPodList client w))))))
  /\ (forall {W : Type} (client : Client W) (filter : option PodSandboxFilter)
             (w1 w2 : W),
        fst (GetPodList client w1) = fst (GetPodList client w2) ->
        fst (ListPodSandbox client filter (fresh w1)) =
        fst (ListPodSandbox client filter (fresh w2))).
Proof.
  split; [apply sortByCreatedAt_sorted|].
  split; [apply sortByCreatedAt_perm|].
  split; [intros t; apply createdAt_sort|].
  split; [|split].
  - intros W client filter w w' pods Hlist Hall entries.
    exists (sortByCreatedAt entries).
    rewrite (ListPodSandbox_ok client filter w w' pods Hlist Hall).
    split; [reflexivity|]. split; [reflexivity|].
    split; [apply sortByCreatedAt_sorted|].
    split; [apply sortByCreatedAt_perm|intros t; apply createdAt_sort].
  - intros W client filter w err Hres.
    destruct (ListPodSandbox_inv client filter w items err Hres) as (_ & _ & _ & ->).
    split; [apply sortByCreatedAt_sorted|intros t; apply createdAt_sort].
  - intros W client filter w1 w2 Heq.
    unfold ListPodSandbox. run_monad.
    destruct (GetPodList client w1) as [[pods1 e1] w1'].
    destruct (GetPodList client w2) as [[pods2 e2] w2'].
    simpl in Heq. injection Heq as -> ->.
    destruct e2; [reflexivity|]. apply ListPodSandbox_loop_result.
Qed.

(** The theorem on an engine whose pods a, b, c, d were created at 30, 10,
    20, 10: the listing returns b, d, c, a, the two pods created at 10 in
    the engine's order; and on the same creation times as a bare slice. *)
Lemma sortByCreatedAt_stable_witness :
  (exists result,
      fst (ListPodSandbox (healthyClient (sampleInfo ∅ 0) tiedPods) None (fresh tt))
      = (Some result, None)
      /\ List.map ps_Id result = ["b"; "d"; "c"; "a"]
      /\ List.map ps_CreatedAt result =
           [10000000000; 10000000000; 20000000000; 30000000000]
      /\ Sorted olderOrSame result)
  /\ List.map ps_Id
       (sortByCreatedAt [entryAt "a" 30; entryAt "b" 10; entryAt "c" 20; entryAt "d" 10])
     = ["b"; "d"; "c"; "a"]
  /\ Sorted olderOrSame
       (sortByCreatedAt [entryAt "a" 30; entryAt "b" 10; entryAt "c" 20; entryAt "d" 10])
  /\ createdAt 10
       (sortByCreatedAt [entryAt "a" 30; entryAt "b" 10; entryAt "c" 20; entryAt "d" 10])
     = [entryAt "b" 10; entryAt "d" 10].
Proof.
  destruct (sortByCreatedAt_stable
              [entryAt "a" 30; entryAt "b" 10; entryAt "c" 20; entryAt "d" 10])
    as (Hsorted & _ & Hstable & Hlisting & _).
  split.
  - destruct (Hlisting unit (healthyClient (sampleInfo ∅ 0) tiedPods) None tt tt
                tiedPods eq_refl) as (result & Hres & Heq & Hsort & _).
    + repeat constructor.
    + exists result. split; [exact Hres|].
      split; [rewrite Heq; reflexivity|].
      split; [rewrite Heq; reflexivity|exact Hsort].
  - split; [reflexivity|]. split; [exact Hsorted|]. rewrite Hstable. reflexivity.
Defined.

(* ===================================================================== *)
(** ** PodSandboxStatus *)
(* ===================================================================== *)

Lemma PodSandboxStatus_ok {W : Type} (client : Client W) (podSandboxID : string)
      (w w' : W) (info : PodInfo)
      (podName podNamespace podUID : string) (attempt : N) :
  GetPodInfo client podSandboxID w = ((info, None), w') ->
  parseSandboxName (info_PodName info) =
    (podName, podNamespace, podUID, attempt, None) ->
  PodSandboxStatus client podSandboxID (fresh w) =
    ((Some {| pss_Id := podSandboxID;
              pss_Metadata := {| Name := podName; Uid := podUID;
                                 Namespace := podNamespace; Attempt := attempt |};
              pss_State := toPodSandboxState (info_Status_Phase info);
              pss_Network_Ip := match info_Status_PodIP info with
                                | ip :: _ => ip
                                | [] => EmptyString
                                end;
              pss_CreatedAt := mul_int64 (info_CreatedAt info) secondToNano;
              pss_Labels := getKubeletLabels (info_Spec_Labels info);
              pss_Annotations := getAnnotationsFromLabels (info_Spec_Labels info) |},
      None),
     mkRT w' [CallGetPodInfo podSandboxID] []).
Proof.
  intros Hinfo Hparse. unfold PodSandboxStatus. run_monad.
  rewrite Hinfo. simpl. rewrite Hparse. reflexivity.
Qed.

Lemma PodSandboxStatus_decoded {W : Type} (client : Client W) (podSandboxID : string)
      (w w' : W) (info : PodInfo) :
  GetPodInfo client podSandboxID w = ((info, None), w') ->
  decodeError (info_PodName info) = None ->
  exists st,
    fst (PodSandboxStatus client podSandboxID (fresh w)) = (Some st, None)
    /\ pss_State st = toPodSandboxState (info_Status_Phase info)
    /\ pss_CreatedAt st = mul_int64 (info_CreatedAt info) secondToNano
    /\ pss_Labels st = getKubeletLabels (info_Spec_Labels info)
    /\ pss_Annotations st = getAnnotationsFromLabels (info_Spec_Labels info).
Proof.
  intros Hinfo Hdec.
  destruct (decodeError_cases (info_PodName info))
    as [[(n & ns & u & a & Hparse) _]|[_ Herr]]; [|congruence].
  rewrite (PodSandboxStatus_ok client podSandboxID w w' info n ns u a Hinfo Hparse).
  eexists. split; [reflexivity|]. simpl. auto.
Qed.





(* ===================================================================== *)
(** ** The phase mapping *)
(* ===================================================================== *)

(** C4.  The phase mapping is total with values [READY] and [NOTREADY]; a
    phase that is not in the table of recognised phases maps to [NOTREADY];
    and the mapping never makes an operation fail: whatever the phase of a
    record, [PodSandboxStatus] (when the record is fetched and its name
    decodes) returns a status whose state is the mapped phase, with a nil
    error, and the listing entry of a pod carries the mapped phase. *)
Theorem toPodSandboxState_total (phase : string) :
  (toPodSandboxState phase = READY \/ toPodSandboxState phase = NOTREADY)
  /\ (lookupPhase recognizedPhases phase = None -> toPodSandboxState phase = NOTREADY)
  /\ (forall s, lookupPhase recognizedPhases phase = Some s -> toPodSandboxState phase = s)
  /\ (forall {W : Type} (client : Client W) (podSandboxID : string) (w w' : W)
             (info : PodInfo),
        GetPodInfo client podSandboxID w = ((info, None), w') ->
        info_Status_Phase info = phase ->
        decodeError (info_PodName info) = None ->
        exists st,
          fst (PodSandboxStatus client podSandboxID (fresh w)) = (Some st, None)
          /\ pss_State st = toPodSandboxState phase)
  /\ (forall pod, pod_Status pod = phase ->
                  ps_State (sandboxOf pod) = toPodSandboxState phase).
Proof.
  split; [destruct (toPodSandboxState phase); auto|].
  split; [unfold toPodSandboxState; intros ->; reflexivity|].
  split; [unfold toPodSandboxState; intros s ->; reflexivity|].
  split.
  - intros W client id w w' info Hinfo <- Hdec.
    destruct (PodSandboxStatus_decoded client id w w' info Hinfo Hdec)
      as (st & Hres & Hstate & _).
    exists st. auto.
  - intros pod <-. unfold sandboxOf.
    destruct (parseSandboxName (pod_PodName pod)) as [[[[n ns] u] a] err]. reflexivity.
Qed.

(** The theorem at a phase the table does not have, and the table's one
    entry. *)
Lemma toPodSandboxState_total_witness :
  toPodSandboxState "Unknown" = NOTREADY /\ toPodSandboxState "running" = READY.
Proof.
  split.
  - exact (proj1 (proj2 (toPodSandboxState_total "Unknown")) eq_refl).
  - exact (proj1 (proj2 (proj2 (toPodSandboxState_total "running"))) READY eq_refl).
Defined.

(* ===================================================================== *)
(** ** Creation time *)
(* ===================================================================== *)

Lemma wrap_int64_id (z : Z) : in_int64 z -> wrap_int64 z = z.
Proof.
  unfold in_int64, int64_min, int64_max, wrap_int64. intros H.
  rewrite Z.mod_small; lia.
Qed.

Lemma wrap_int64_range (z : Z) : in_int64 (wrap_int64 z).
Proof.
  unfold in_int64, int64_min, int64_max, wrap_int64.
  pose proof (Z.mod_pos_bound (z + 2 ^ 63) (2 ^ 64) ltac:(lia)). lia.
Qed.

(** C5, as the code has it.  The product is taken in [int64].  For a
    creation time [t] of at most 9223372036 seconds in absolute value (the
    times whose nanosecond count fits 64 bits), the [CreatedAt] of the
    status returned by [PodSandboxStatus] and of every entry returned by
    [ListPodSandbox] is [t * 1000000000] exactly. *)
Theorem CreatedAt_nanoseconds (t : Z) :
  -9223372036 <= t <= 9223372036 ->
  mul_int64 t secondToNano = t * 1000000000
  /\ (forall {W : Type} (client : Client W) (podSandboxID : string) (w w' : W)
             (info : PodInfo),
        GetPodInfo client podSandboxID w = ((info, None), w') ->
        info_CreatedAt info = t ->
        decodeError (info_PodName info) = None ->
        exists st,
          fst (PodSandboxStatus client podSandboxID (fresh w)) = (Some st, None)
          /\ pss_CreatedAt st = t * 1000000000)
  /\ (forall {W : Type} (client : Client W) (filter : option PodSandboxFilter) (w : W)
             (items : list PodSandbox) (err : error) (R : PodListResult),
        fst (ListPodSandbox client filter (fresh w)) = (Some items, err) ->
        In R (fst (fst (GetPodList client w))) ->
        matchesFilter filter R ->
        pod_CreatedAt R = t ->
        In (sandboxOf R) items /\ ps_CreatedAt (sandboxOf R) = t * 1000000000).
Proof.
  intros Ht.
  assert (Hmul : mul_int64 t secondToNano = t * 1000000000).
  { unfold mul_int64, secondToNano. apply wrap_int64_id.
    unfold in_int64, int64_min, int64_max. lia. }
  split; [exact Hmul|]. split.
  - intros W client id w w' info Hinfo <- Hdec.
    destruct (PodSandboxStatus_decoded client id w w' info Hinfo Hdec)
      as (st & Hres & _ & Hcreated & _).
    exists st. split; [exact Hres|]. rewrite Hcreated. exact Hmul.
  - intros W client filter w items err R Hres HR Hm <-.
    destruct (ListPodSandbox_inv client filter w items err Hres) as (_ & _ & _ & ->).
    split.
    + apply In_sortByCreatedAt, in_map, filter_In. split; [exact HR|].
      apply kept_matches, Hm.
    + unfold sandboxOf.
      destruct (parseSandboxName (pod_PodName R)) as [[[[n ns] u] a] e]. exact Hmul.
Qed.

(** The theorem at the creation time 1000 of the spec's scenario. *)
Lemma CreatedAt_nanoseconds_witness :
  exists st,
    fst (PodSandboxStatus (healthyClient (sampleInfo ∅ 1000) []) "pod-1" (fresh tt))
    = (Some st, None)
    /\ pss_CreatedAt st = 1000000000000.
Proof.
  exact (proj1 (proj2 (CreatedAt_nanoseconds 1000 ltac:(lia)))
           unit (healthyClient (sampleInfo ∅ 1000) []) "pod-1" tt tt
           (sampleInfo ∅ 1000) eq_refl eq_refl eq_refl).
Defined.

(** Against C5 as it is worded: a record created 9223372037 seconds after
    the epoch, a time an [int64] holds, gets a negative [CreatedAt], not
    9223372037 * 1000000000. *)
Lemma CreatedAt_wraps_around :
  exists st,
    fst (PodSandboxStatus (healthyClient (sampleInfo ∅ 9223372037) []) "pod-1" (fresh tt))
    = (Some st, None)
    /\ in_int64 9223372037
    /\ pss_CreatedAt st = -9223372036709551616
    /\ pss_CreatedAt st <> 9223372037 * 1000000000.
Proof.
  eexists. split; [reflexivity|].
  split; [unfold in_int64, int64_min, int64_max; lia|].
  split; [reflexivity|]. vm_compute. discriminate.
Qed.

(* ===================================================================== *)
(** ** Labels and annotations *)
(* ===================================================================== *)

Lemma marked_append (k : string) : marked (fraktiAnnotationLabel +:+ k) = true.
Proof. apply HasPrefix_append. Qed.

Lemma marked_decompose (k : string) :
  marked k = true -> k = fraktiAnnotationLabel +:+ TrimPrefix k fraktiAnnotationLabel.
Proof. apply HasPrefix_decompose. Qed.

Lemma getKubeletLabels_lookup (m : gmap string string) (k : string) :
  getKubeletLabels m !! k = if marked k then None else m !! k.
Proof.
  revert k. unfold getKubeletLabels.
  apply (map_fold_weak_ind
           (fun (r m : gmap string string) =>
              forall k, r !! k = if marked k then None else m !! k)).
  - intros k. rewrite !lookup_empty. destruct (marked k); reflexivity.
  - intros i x m' r Hfresh IH k. fold (marked i).
    destruct (marked i) eqn:Hi.
    + rewrite IH. destruct (marked k) eqn:Hk; [reflexivity|].
      rewrite lookup_insert_ne; [reflexivity|]. intros ->. congruence.
    + destruct (decide (i = k)) as [->|Hne].
      * rewrite Hi, !lookup_insert_eq. reflexivity.
      * rewrite !lookup_insert_ne by exact Hne. apply IH.
Qed.

Lemma getAnnotationsFromLabels_lookup (m : gmap string string) (k : string) :
  getAnnotationsFromLabels m !! k = m !! (fraktiAnnotationLabel +:+ k).
Proof.
  revert k. unfold getAnnotationsFromLabels.
  apply (map_fold_weak_ind
           (fun (r m : gmap string string) =>
              forall k, r !! k = m !! (fraktiAnnotationLabel +:+ k))).
  - intros k. rewrite !lookup_empty. reflexivity.
  - intros i x m' r Hfresh IH k. fold (marked i).
    destruct (marked i) eqn:Hi.
    + destruct (decide (TrimPrefix i fraktiAnnotationLabel = k)) as [<-|Hne].
      * rewrite <- (marked_decompose i Hi), !lookup_insert_eq. reflexivity.
      * rewrite lookup_insert_ne by exact Hne.
        rewrite lookup_insert_ne; [apply IH|].
        intros ->. apply Hne. apply TrimPrefix_append.
    + rewrite lookup_insert_ne; [apply IH|].
      intros ->. rewrite marked_append in Hi. discriminate.
Qed.

Lemma copy_labels (labels : gmap string string) :
  map_fold (fun k v (rawLabels : gmap string string) => <[k := v]> rawLabels) ∅ labels
  = labels.
Proof.
  apply (map_fold_weak_ind (fun (r m : gmap string string) => r = m)).
  - reflexivity.
  - intros i x m r _ ->. reflexivity.
Qed.

Lemma buildLabelsWithAnnotations_lookup (labels annotations : gmap string string)
      (k : string) :
  buildLabelsWithAnnotations labels annotations !! k =
    match (if marked k then annotations !! TrimPrefix k fraktiAnnotationLabel
           else None) with
    | Some v => Some v
    | None => labels !! k
    end.
Proof.
  revert k. unfold buildLabelsWithAnnotations. rewrite copy_labels.
  apply (map_fold_weak_ind
           (fun (r a : gmap string string) =>
              forall k, r !! k =
                match (if marked k then a !! TrimPrefix k fraktiAnnotationLabel
                       else None) with
                | Some v => Some v
                | None => labels !! k
                end)).
  - intros k. rewrite lookup_empty. destruct (marked k); reflexivity.
  - intros i x a r Hfresh IH k.
    destruct (decide (fraktiAnnotationLabel +:+ i = k)) as [<-|Hne].
    + rewrite lookup_insert_eq, marked_append, TrimPrefix_append, lookup_insert_eq.
      reflexivity.
    + rewrite lookup_insert_ne by exact Hne. rewrite IH.
      destruct (marked k) eqn:Hk; [|reflexivity].
      rewrite lookup_insert_ne; [reflexivity|].
      intros ->. apply Hne. symmetry. apply marked_decompose, Hk.
Qed.

Lemma split_merge (labels annotations : gmap string string) :
  (forall k v, labels !! k = Some v -> marked k = false) ->
  getKubeletLabels (buildLabelsWithAnnotations labels annotations) = labels /\
  getAnnotationsFromLabels (buildLabelsWithAnnotations labels annotations) = annotations.
Proof.
  intros Hplain.
  assert (Hnone : forall k, marked k = true -> labels !! k = None).
  { intros k Hk. destruct (labels !! k) as [v|] eqn:Hl; [|reflexivity].
    rewrite (Hplain k v Hl) in Hk. discriminate. }
  split; apply map_eq; intros k.
  - rewrite getKubeletLabels_lookup, buildLabelsWithAnnotations_lookup.
    destruct (marked k) eqn:Hk; [symmetry; apply Hnone, Hk|reflexivity].
  - rewrite getAnnotationsFromLabels_lookup, buildLabelsWithAnnotations_lookup.
    rewrite marked_append, TrimPrefix_append.
    destruct (annotations !! k); [reflexivity|].
    apply Hnone, marked_append.
Qed.

(** C8, as the code has it.  [PodSandboxStatus] routes every key of the
    engine's map [m] to exactly one view: a key that carries the marker is
    in the annotations under its name without the marker, and is not a
    label; any other key is a label, verbatim; and every label and every
    annotation comes from [m] in this way.  For label maps none of whose
    keys carries the marker, and any annotations, splitting the merge gives
    both back. *)
Theorem labels_annotations_split (m : gmap string string) :
  (forall k v, m !! k = Some v ->
     if marked k
     then getAnnotationsFromLabels m !! TrimPrefix k fraktiAnnotationLabel = Some v
          /\ getKubeletLabels m !! k = None
     else getKubeletLabels m !! k = Some v)
  /\ (forall k v, getKubeletLabels m !! k = Some v -> m !! k = Some v /\ marked k = false)
  /\ (forall k v, getAnnotationsFromLabels m !! k = Some v ->
                  m !! (fraktiAnnotationLabel +:+ k) = Some v)
  /\ (forall {W : Type} (client : Client W) (podSandboxID : string) (w w' : W)
             (info : PodInfo),
        GetPodInfo client podSandboxID w = ((info, None), w') ->
        info_Spec_Labels info = m ->
        decodeError (info_PodName info) = None ->
        exists st,
          fst (PodSandboxStatus client podSandboxID (fresh w)) = (Some st, None)
          /\ pss_Labels st = getKubeletLabels m
          /\ pss_Annotations st = getAnnotationsFromLabels m)
  /\ (forall a : gmap string string,
        (forall k v, m !! k = Some v -> marked k = false) ->
        getKubeletLabels (buildLabelsWithAnnotations m a) = m /\
        getAnnotationsFromLabels (buildLabelsWithAnnotations m a) = a).
Proof.
  split.
  { intros k v Hk. destruct (marked k) eqn:Hm.
    - rewrite getAnnotationsFromLabels_lookup, getKubeletLabels_lookup, Hm.
      rewrite <- (marked_decompose k Hm). auto.
    - rewrite getKubeletLabels_lookup, Hm. exact Hk. }
  split.
  { intros k v. rewrite getKubeletLabels_lookup.
    destruct (marked k); [discriminate|auto]. }
  split.
  { intros k v. rewrite getAnnotationsFromLabels_lookup. auto. }
  split.
  { intros W client id w w' info Hinfo <- Hdec.
    destruct (PodSandboxStatus_decoded client id w w' info Hinfo Hdec)
      as (st & Hres & _ & _ & Hl & Ha).
    exists st. auto. }
  intros a. apply split_merge.
Qed.

(** The theorem on an engine map with the label app=web and the annotation
    owner=ops, and on the merge of the two. *)
Lemma labels_annotations_split_witness :
  getAnnotationsFromLabels sampleRawLabels !! "owner" = Some "ops"
  /\ getKubeletLabels sampleRawLabels !! markedOwner = None
  /\ getKubeletLabels sampleRawLabels !! "app" = Some "web"
  /\ getKubeletLabels
       (buildLabelsWithAnnotations {[ "app" := "web" ]} {[ "owner" := "ops" ]})
     = {[ "app" := "web" ]}
  /\ getAnnotationsFromLabels
       (buildLabelsWithAnnotations {[ "app" := "web" ]} {[ "owner" := "ops" ]})
     = {[ "owner" := "ops" ]}.
Proof.
  destruct (labels_annotations_split sampleRawLabels) as (Hroute & _).
  destruct (labels_annotations_split {[ "app" := "web" ]}) as (_ & _ & _ & _ & Hmerge).
  split; [exact (proj1 (Hroute markedOwner "ops" eq_refl))|].
  split; [exact (proj2 (Hroute markedOwner "ops" eq_refl))|].
  split; [exact (Hroute "app" "web" eq_refl)|].
  apply Hmerge. intros k v Hk.
  apply lookup_singleton_Some in Hk as [<- _]. reflexivity.
Defined.

(** Against C8 as it is worded.  First, an entry of [ListPodSandbox]
    carries the engine's map as its labels, marked keys included.  Second,
    a label map with a marked key and no annotations (two disjoint maps)
    are not given back by splitting their merge.  Third, the key sets of
    the two views of a status can meet: an annotation's name without the
    marker may also be the key of a label. *)
Lemma labels_annotations_not_partitioned :
  (exists items entry,
      fst (ListPodSandbox
             (healthyClient (sampleInfo ∅ 0)
                [samplePod "pod-1" "default_web_9f3c_2" "running" sampleRawLabels 10])
             None (fresh tt)) = (Some items, None)
      /\ In entry items
      /\ marked markedOwner = true
      /\ ps_Labels entry !! markedOwner = Some "ops")
  /\ (({[ markedOwner := "ops" ]} : gmap string string) ##ₘ (∅ : gmap string string)
      /\ (getKubeletLabels (buildLabelsWithAnnotations {[ markedOwner := "ops" ]} ∅),
          getAnnotationsFromLabels (buildLabelsWithAnnotations {[ markedOwner := "ops" ]} ∅))
         <> ({[ markedOwner := "ops" ]}, ∅))
  /\ (getKubeletLabels {[ "owner" := "dev"; markedOwner := "ops" ]} !! "owner" = Some "dev"
      /\ getAnnotationsFromLabels {[ "owner" := "dev"; markedOwner := "ops" ]} !! "owner"
         = Some "ops").
Proof.
  split; [|split].
  - eexists _, _. split; [reflexivity|]. split; [left; reflexivity|].
    split; reflexivity.
  - split; [apply map_disjoint_empty_r|].
    intros Heq. apply (f_equal (fun p => snd p !! "owner")) in Heq.
    vm_compute in Heq. discriminate.
  - split; reflexivity.
Qed.

(* ===================================================================== *)
(** ** Further properties of the operations *)
(* ===================================================================== *)

Section OperationsFromAnyState.
Context {W : Type}.
Variable client : Client W.

Lemma Version_run (s : RT W) :
  Version client s =
    (match snd (fst (GetVersion client (world s))) with
     | Some e => (EmptyString, EmptyString, EmptyString, Some e)
     | None => (hyperRuntimeName,
                fst (fst (fst (GetVersion client (world s)))),
                snd (fst (fst (GetVersion client (world s)))), None)
     end,
     mkRT (snd (GetVersion client (world s))) (calls s ++ [CallGetVersion])
          (glog s ++
           match snd (fst (GetVersion client (world s))) with
           | Some e => [mkLogEntry ErrorLevel "Get hyper version failed: %v" [ArgError e]]
           | None => []
           end)).
Proof.
  unfold Version. run_monad.
  destruct (GetVersion client (world s)) as [[[version apiVersion] [e|]] w']; simpl.
  - reflexivity.
  - rewrite app_nil_r. reflexivity.
Qed.

Lemma DeletePodSandbox_run (podSandboxID : string) (s : RT W) :
  DeletePodSandbox client podSandboxID s =
    (fst (RemovePod client podSandboxID (world s)),
     mkRT (snd (RemovePod client podSandboxID (world s)))
          (calls s ++ [CallRemovePod podSandboxID])
          (glog s ++
           match fst (RemovePod client podSandboxID (world s)) with
           | Some e => [mkLogEntry ErrorLevel "Remove pod %s failed: %v"
                                   [ArgString podSandboxID; ArgError e]]
           | None => []
           end)).
Proof.
  unfold DeletePodSandbox. run_monad.
  destruct (RemovePod client podSandboxID (world s)) as [[e|] w']; simpl.
  - reflexivity.
  - rewrite app_nil_r. reflexivity.
Qed.

Lemma Status_run (w : W) :
  snd (Status client (fresh w)) = mkRT (snd (GetVersion client w)) [CallGetVersion] [].
Proof.
  unfold Status. run_monad.
  destruct (GetVersion client w) as [[[version apiVersion] err] w']. reflexivity.
Qed.

End OperationsFromAnyState.

(** X1.  [Version] answers with the runtime name "hyper" and the engine's
    two version strings, unchanged, exactly when the engine's version query
    succeeds; when the query fails it returns the engine's error and three
    empty strings (the runtime name is withheld too).  It queries the
    engine once. *)
Theorem Version_result {W : Type} (client : Client W) (w : W) :
  let reply := fst (GetVersion client w) in
  let result := fst (Version client (fresh w)) in
  snd result = snd reply
  /\ (snd reply = None -> result = ("hyper", fst (fst reply), snd (fst reply), None))
  /\ (forall e, snd reply = Some e ->
        result = (EmptyString, EmptyString, EmptyString, Some e))
  /\ (fst (fst (fst result)) = "hyper" <-> snd result = None)
  /\ calls (snd (Version client (fresh w))) = [CallGetVersion].
Proof.
  rewrite Version_run. simpl.
  destruct (GetVersion client w) as [[[version apiVersion] [e|]] w']; simpl.
  - repeat split; try reflexivity; try discriminate; congruence.
  - repeat split; try reflexivity; try discriminate.
Qed.

Lemma Version_result_witness :
  fst (Version (healthyClient (sampleInfo ∅ 0) []) (fresh tt)) =
    ("hyper", "0.6.0", "1.0", None)
  /\ fst (Version downClient (fresh tt)) =
     (EmptyString, EmptyString, EmptyString, Some (EngineError "connection refused")).
Proof.
  split.
  - exact (proj1 (proj2 (Version_result (healthyClient (sampleInfo ∅ 0) []) tt)) eq_refl).
  - exact (proj1 (proj2 (proj2 (Version_result downClient tt))) _ eq_refl).
Defined.

(** X2.  [Status] and [Version] agree on the same engine state: the
    [RuntimeReady] condition of [Status] is true exactly when [Version]
    returns a nil error, and when [Version] fails with [e] the condition's
    message is the fixed text followed by the text of [e].  [Status] itself
    logs nothing, also when the query fails. *)
Theorem Status_agrees_with_Version {W : Type} (client : Client W) (w : W) :
  exists runtimeReady networkReady,
    Conditions (fst (fst (Status client (fresh w)))) = [runtimeReady; networkReady]
    /\ (cond_Status runtimeReady = Some true <->
        snd (fst (Version client (fresh w))) = None)
    /\ (forall e, snd (fst (Version client (fresh w))) = Some e ->
          cond_Status runtimeReady = Some false /\
          cond_Message runtimeReady =
            Some ("hyper: failed to get hyper version: " +:+ Error_string e))
    /\ glog (snd (Status client (fresh w))) = [].
Proof.
  rewrite Status_run, Version_run. unfold Status. run_monad.
  destruct (GetVersion client w) as [[[version apiVersion] [e|]] w']; simpl;
    eexists _, _; (split; [reflexivity|]); simpl.
  - split; [split; discriminate|]. split; [|reflexivity].
    intros e' [= <-]. auto.
  - split; [split; reflexivity|]. split; [discriminate|reflexivity].
Qed.

Lemma Status_agrees_with_Version_witness :
  snd (fst (Version downClient (fresh tt))) = Some (EngineError "connection refused")
  /\ exists runtimeReady networkReady,
       Conditions (fst (fst (Status downClient (fresh tt)))) = [runtimeReady; networkReady]
       /\ cond_Message runtimeReady =
            Some "hyper: failed to get hyper version: connection refused".
Proof.
  split; [reflexivity|].
  destruct (Status_agrees_with_Version downClient tt)
    as (rr & nr & Hc & _ & Hfail & _).
  exists rr, nr. split; [exact Hc|].
  exact (proj2 (Hfail (EngineError "connection refused") eq_refl)).
Defined.

(** The five ways [RunPodSandbox] can go, with everything it leaves
    behind. *)
Lemma RunPodSandbox_cases {W : Type} (client : Client W)
      (config : PodSandboxConfig) (w : W) :
  (exists e,
      buildUserPod config = inr e /\
      RunPodSandbox client config (fresh w) =
        ((EmptyString, Some e),
         mkRT w []
              [mkLogEntry ErrorLevel "Build UserPod for sandbox %q failed: %v"
                          [ArgConfig config; ArgError e]]))
  \/ (exists userpod podID e w1,
         buildUserPod config = inl userpod /\
         CreatePod client userpod w = ((podID, Some e), w1) /\
         RunPodSandbox client config (fresh w) =
           ((EmptyString, Some e),
            mkRT w1 [CallCreatePod userpod]
                 [mkLogEntry ErrorLevel "Create pod for sandbox %q failed: %v"
                             [ArgConfig config; ArgError e]]))
  \/ (exists userpod podID w1 w2,
         buildUserPod config = inl userpod /\
         CreatePod client userpod w = ((podID, None), w1) /\
         StartPod client podID w1 = (None, w2) /\
         RunPodSandbox client config (fresh w) =
           ((podID, None), mkRT w2 [CallCreatePod userpod; CallStartPod podID] []))
  \/ (exists userpod podID e w1 w2 w3,
         buildUserPod config = inl userpod /\
         CreatePod client userpod w = ((podID, None), w1) /\
         StartPod client podID w1 = (Some e, w2) /\
         RemovePod client podID w2 = (None, w3) /\
         RunPodSandbox client config (fresh w) =
           ((EmptyString, Some e),
            mkRT w3 [CallCreatePod userpod; CallStartPod podID; CallRemovePod podID]
                 [mkLogEntry ErrorLevel "Start pod %q failed: %v"
                             [ArgString podID; ArgError e]]))
  \/ (exists userpod podID e re w1 w2 w3,
         buildUserPod config = inl userpod /\
         CreatePod client userpod w = ((podID, None), w1) /\
         StartPod client podID w1 = (Some e, w2) /\
         RemovePod client podID w2 = (Some re, w3) /\
         RunPodSandbox client config (fresh w) =
           ((EmptyString, Some e),
            mkRT w3 [CallCreatePod userpod; CallStartPod podID; CallRemovePod podID]
                 [mkLogEntry ErrorLevel "Start pod %q failed: %v"
                             [ArgString podID; ArgError e];
                  mkLogEntry WarningLevel "Remove pod %q failed: %v" [ArgError re]])).
Proof.
  unfold RunPodSandbox.
  destruct (buildUserPod config) as [userpod|e] eqn:Hbuild.
  - run_monad.
    destruct (CreatePod client userpod w) as [[podID [e|]] w1] eqn:Hc; simpl.
    + right. left. exists userpod, podID, e, w1. auto.
    + destruct (StartPod client podID w1) as [[e|] w2] eqn:Hs; simpl.
      * destruct (RemovePod client podID w2) as [[re|] w3] eqn:Hr; simpl.
        -- do 4 right. exists userpod, podID, e, re, w1, w2, w3. auto 6.
        -- do 3 right. left. exists userpod, podID, e, w1, w2, w3. auto 6.
      * do 2 right. left. exists userpod, podID, w1, w2. auto.
  - left. exists e. split; reflexivity.
Qed.

(** X3.  Whatever the client does, [RunPodSandbox] calls it at most three
    times and only in the order [CreatePod], [StartPod], [RemovePod]; the
    id given to [StartPod] and to [RemovePod] is the one [CreatePod]
    returned; a non-nil error always comes with the empty id; and a nil error
    comes with the id [CreatePod] returned, after exactly one [CreatePod] and
    one [StartPod] call, with no [RemovePod] call and nothing logged. *)
Theorem RunPodSandbox_calls {W : Type} (client : Client W)
        (config : PodSandboxConfig) (w : W) :
  let run := RunPodSandbox client config (fresh w) in
  let trace := calls (snd run) in
  (trace = []
   \/ (exists userpod, trace = [CallCreatePod userpod])
   \/ (exists userpod,
          let podID := fst (fst (CreatePod client userpod w)) in
          buildUserPod config = inl userpod /\
          (trace = [CallCreatePod userpod; CallStartPod podID] \/
           trace = [CallCreatePod userpod; CallStartPod podID; CallRemovePod podID])))
  /\ (snd (fst run) <> None -> fst (fst run) = EmptyString)
  /\ (snd (fst run) = None ->
      exists userpod,
        buildUserPod config = inl userpod /\
        fst (fst run) = fst (fst (CreatePod client userpod w)) /\
        trace = [CallCreatePod userpod; CallStartPod (fst (fst run))] /\
        glog (snd run) = []).
Proof.
  destruct (RunPodSandbox_cases client config w)
    as [(e & Hb & Hrun)
       |[(userpod & podID & e & w1 & Hb & Hc & Hrun)
        |[(userpod & podID & w1 & w2 & Hb & Hc & Hs & Hrun)
         |[(userpod & podID & e & w1 & w2 & w3 & Hb & Hc & Hs & Hr & Hrun)
          |(userpod & podID & e & re & w1 & w2 & w3 & Hb & Hc & Hs & Hr & Hrun)]]]];
    simpl; rewrite Hrun; simpl.
  - split; [left; reflexivity|]. split; [reflexivity|discriminate].
  - split; [right; left; eauto|]. split; [reflexivity|discriminate].
  - split.
    + right. right. exists userpod. rewrite Hc. simpl. auto.
    + split; [congruence|]. intros _. exists userpod. rewrite Hc. simpl. auto.
  - split.
    + right. right. exists userpod. rewrite Hc. simpl. auto.
    + split; [reflexivity|discriminate].
  - split.
    + right. right. exists userpod. rewrite Hc. simpl. auto.
    + split; [reflexivity|discriminate].
Qed.

Lemma RunPodSandbox_calls_witness :
  fst (RunPodSandbox (healthyClient (sampleInfo ∅ 0) []) sampleConfig (fresh tt))
  = ("pod-1", None)
  /\ exists userpod,
       calls (snd (RunPodSandbox (healthyClient (sampleInfo ∅ 0) []) sampleConfig
                                 (fresh tt)))
       = [CallCreatePod userpod; CallStartPod "pod-1"].
Proof.
  split; [reflexivity|].
  destruct (proj2 (proj2 (RunPodSandbox_calls (healthyClient (sampleInfo ∅ 0) [])
                            sampleConfig tt)) eq_refl)
    as (userpod & _ & _ & Htrace & _).
  exists userpod. exact Htrace.
Defined.

(** X4.  When the pod specification cannot be built, [RunPodSandbox]
    returns the empty id and the build error without calling the client at
    all: the engine is left in the state it was in, and one error line is
    logged. *)
Theorem RunPodSandbox_build_failure {W : Type} (client : Client W)
        (config : PodSandboxConfig) (w : W) (e : Error) :
  buildUserPod config = inr e ->
  fst (RunPodSandbox client config (fresh w)) = (EmptyString, Some e)
  /\ calls (snd (RunPodSandbox client config (fresh w))) = []
  /\ world (snd (RunPodSandbox client config (fresh w))) = w
  /\ glog (snd (RunPodSandbox client config (fresh w))) =
       [mkLogEntry ErrorLevel "Build UserPod for sandbox %q failed: %v"
                   [ArgConfig config; ArgError e]].
Proof.
  intros Hb. unfold RunPodSandbox. rewrite Hb. run_monad. auto.
Qed.

Lemma RunPodSandbox_build_failure_witness :
  fst (RunPodSandbox stuckClient configWithoutMetadata (fresh tt)) =
    (EmptyString, Some (SpecBuildError "sandbox metadata is missing"))
  /\ calls (snd (RunPodSandbox stuckClient configWithoutMetadata (fresh tt))) = [].
Proof.
  destruct (RunPodSandbox_build_failure stuckClient configWithoutMetadata tt
              (SpecBuildError "sandbox metadata is missing") eq_refl)
    as (Hres & Hcalls & _).
  split; [exact Hres|exact Hcalls].
Defined.

(** X5.  Every error line that [RunPodSandbox] logs has one argument for
    each verb of its format; the warning it logs when the removal after a
    failed start fails as well has two verbs but a single argument, the
    removal error: the pod id is not passed.  That warning is logged exactly
    when the start fails and the removal fails. *)
Theorem RunPodSandbox_log_lines {W : Type} (client : Client W)
        (config : PodSandboxConfig) (w : W) :
  let lines := glog (snd (RunPodSandbox client config (fresh w))) in
  (forall entry, In entry lines -> log_severity entry = ErrorLevel ->
                 wellFormedLine entry)
  /\ (forall entry, In entry lines -> log_severity entry = WarningLevel ->
        verbs (log_format entry) = 2%nat /\
        exists re, log_args entry = [ArgError re])
  /\ (forall userpod podID e re w1 w2 w3,
        buildUserPod config = inl userpod ->
        CreatePod client userpod w = ((podID, None), w1) ->
        StartPod client podID w1 = (Some e, w2) ->
        RemovePod client podID w2 = (Some re, w3) ->
        In (mkLogEntry WarningLevel "Remove pod %q failed: %v" [ArgError re]) lines).
Proof.
  destruct (RunPodSandbox_cases client config w)
    as [(e & Hb & Hrun)
       |[(userpod & podID & e & w1 & Hb & Hc & Hrun)
        |[(userpod & podID & w1 & w2 & Hb & Hc & Hs & Hrun)
         |[(userpod & podID & e & w1 & w2 & w3 & Hb & Hc & Hs & Hr & Hrun)
          |(userpod & podID & e & re & w1 & w2 & w3 & Hb & Hc & Hs & Hr & Hrun)]]]];
    simpl; rewrite Hrun; simpl.
  - split; [|split].
    + intros entry [<-|[]] _. reflexivity.
    + intros entry [<-|[]]; discriminate.
    + intros; congruence.
  - split; [|split].
    + intros entry [<-|[]] _. reflexivity.
    + intros entry [<-|[]]; discriminate.
    + intros; congruence.
  - split; [|split].
    + intros entry [].
    + intros entry [].
    + intros; congruence.
  - split; [|split].
    + intros entry [<-|[]] _. reflexivity.
    + intros entry [<-|[]]; discriminate.
    + intros; congruence.
  - split; [|split].
    + intros entry [<-|[<-|[]]]; [reflexivity|discriminate].
    + intros entry [<-|[<-|[]]]; [discriminate|]. intros _.
      split; [reflexivity|eauto].
    + intros userpod' podID' e' re' w1' w2' w3' Hb' Hc' Hs' Hr'.
      assert (userpod' = userpod) by congruence. subst userpod'.
      assert (podID' = podID /\ w1' = w1) as [-> ->] by (split; congruence).
      assert (w2' = w2) by congruence. subst w2'.
      assert (re' = re) by congruence. subst re'.
      right. left. reflexivity.
Qed.

Lemma RunPodSandbox_log_lines_witness :
  In (mkLogEntry WarningLevel "Remove pod %q failed: %v"
                 [ArgError (EngineError "remove failed")])
     (glog (snd (RunPodSandbox stuckClient sampleConfig (fresh tt))))
  /\ ~ wellFormedLine (mkLogEntry WarningLevel "Remove pod %q failed: %v"
                                  [ArgError (EngineError "remove failed")]).
Proof.
  split.
  - exact (proj2 (proj2 (RunPodSandbox_log_lines stuckClient sampleConfig tt))
             _ "pod-1" (EngineError "start failed") (EngineError "remove failed")
             tt tt tt eq_refl eq_refl eq_refl eq_refl).
  - unfold wellFormedLine. simpl. discriminate.
Defined.

(** X6.  [StopPodSandbox] looks at the engine's error only: when the
    engine's stop call returns a nil error, the caller gets nil and nothing
    is logged, whatever code and cause the engine reported with it.  In
    every case the result is the engine's error, [StopPod] is called once
    for the given id, and the engine is left as that call left it. *)
Theorem StopPodSandbox_looks_at_error_only {W : Type} (client : Client W)
        (podSandboxID : string) (w : W) :
  let run := StopPodSandbox client podSandboxID (fresh w) in
  fst run = snd (fst (StopPod client podSandboxID w))
  /\ calls (snd run) = [CallStopPod podSandboxID]
  /\ world (snd run) = snd (StopPod client podSandboxID w)
  /\ (forall code cause w',
        StopPod client podSandboxID w = ((code, cause, None), w') ->
        fst run = None /\ glog (snd run) = []).
Proof.
  destruct (StopPod client podSandboxID w) as [[[code cause] err] w'] eqn:Hstop.
  simpl. rewrite (StopPodSandbox_run client podSandboxID w w' code cause err Hstop).
  simpl. split; [reflexivity|]. split; [reflexivity|]. split; [reflexivity|].
  intros code' cause' w'' [= _ _ -> _]. split; reflexivity.
Qed.

Lemma StopPodSandbox_looks_at_error_only_witness :
  fst (StopPod (stopReportsClient 137 "killed") "pod-1" tt) = (137, "killed", None)
  /\ fst (StopPodSandbox (stopReportsClient 137 "killed") "pod-1" (fresh tt)) = None
  /\ glog (snd (StopPodSandbox (stopReportsClient 137 "killed") "pod-1" (fresh tt))) = [].
Proof.
  split; [reflexivity|].
  exact (proj2 (proj2 (proj2 (StopPodSandbox_looks_at_error_only
                                (stopReportsClient 137 "killed") "pod-1" tt)))
           137 "killed" tt eq_refl).
Defined.

(** X7.  [DeletePodSandbox] keeps no memory of what it deleted and does not
    interpret the engine's answer: deleting the same sandbox twice calls
    [RemovePod] twice with that id, the first result is the engine's answer
    to the first call and the second result is the engine's answer to the
    second call, made in the state the first one left. *)
Theorem DeletePodSandbox_twice {W : Type} (client : Client W)
        (podSandboxID : string) (w : W) :
  let first := DeletePodSandbox client podSandboxID (fresh w) in
  let second := DeletePodSandbox client podSandboxID (snd first) in
  let w1 := snd (RemovePod client podSandboxID w) in
  fst first = fst (RemovePod client podSandboxID w)
  /\ world (snd first) = w1
  /\ fst second = fst (RemovePod client podSandboxID w1)
  /\ world (snd second) = snd (RemovePod client podSandboxID w1)
  /\ calls (snd second) = [CallRemovePod podSandboxID; CallRemovePod podSandboxID].
Proof.
  simpl. rewrite !DeletePodSandbox_run. simpl. auto.
Qed.

Lemma DeletePodSandbox_twice_witness :
  fst (DeletePodSandbox removeOnceClient "pod-1" (fresh true)) = None
  /\ fst (DeletePodSandbox removeOnceClient "pod-1"
            (snd (DeletePodSandbox removeOnceClient "pod-1" (fresh true))))
     = Some (EngineError "no such pod").
Proof.
  destruct (DeletePodSandbox_twice removeOnceClient "pod-1" true)
    as (Hfirst & _ & Hsecond & _).
  split; [exact Hfirst|exact Hsecond].
Defined.

(** X8.  When the engine cannot fetch the pod, [PodSandboxStatus] returns
    a nil status and the engine's error, and does not look at the record
    that came with the error: the result is the same whatever that record
    holds, also when its name would not decode. *)
Theorem PodSandboxStatus_fetch_failure {W : Type} (client : Client W)
        (podSandboxID : string) (w w' : W) (info : PodInfo) (e : Error) :
  GetPodInfo client podSandboxID w = ((info, Some e), w') ->
  PodSandboxStatus client podSandboxID (fresh w) =
    ((None, Some e),
     mkRT w' [CallGetPodInfo podSandboxID]
          [mkLogEntry ErrorLevel "GetPodInfo for %s failed: %v"
                      [ArgString podSandboxID; ArgError e]]).
Proof.
  intros Hinfo. unfold PodSandboxStatus. run_monad. rewrite Hinfo. reflexivity.
Qed.

Lemma PodSandboxStatus_fetch_failure_witness :
  fst (PodSandboxStatus downClient "pod-1" (fresh tt)) =
    (None, Some (EngineError "connection refused")).
Proof.
  rewrite (PodSandboxStatus_fetch_failure downClient "pod-1" tt tt (sampleInfo ∅ 0)
             (EngineError "connection refused") eq_refl).
  reflexivity.
Defined.

(** X9.  In the status [PodSandboxStatus] returns, the id is the id the
    caller asked for, and the address is the first of the addresses the
    engine reports: a pod without addresses gets the empty address and still
    a status with a nil error, and addresses after the first are ignored. *)
Theorem PodSandboxStatus_address {W : Type} (client : Client W)
        (podSandboxID : string) (w w' : W) (info : PodInfo) :
  GetPodInfo client podSandboxID w = ((info, None), w') ->
  decodeError (info_PodName info) = None ->
  exists st,
    fst (PodSandboxStatus client podSandboxID (fresh w)) = (Some st, None)
    /\ pss_Id st = podSandboxID
    /\ (info_Status_PodIP info = [] -> pss_Network_Ip st = EmptyString)
    /\ (forall ip others, info_Status_PodIP info = ip :: others ->
                          pss_Network_Ip st = ip).
Proof.
  intros Hinfo Hdec.
  destruct (decodeError_cases (info_PodName info))
    as [[(n & ns & u & a & Hparse) _]|[_ Herr]]; [|congruence].
  rewrite (PodSandboxStatus_ok client podSandboxID w w' info n ns u a Hinfo Hparse).
  eexists. split; [reflexivity|]. simpl.
  split; [reflexivity|]. split.
  - intros ->. reflexivity.
  - intros ip others ->. reflexivity.
Qed.

Lemma PodSandboxStatus_address_witness :
  exists st,
    fst (PodSandboxStatus
           (healthyClient
              {| info_PodName := "default_web_9f3c_2"; info_Spec_Labels := ∅;
                 info_Status_Phase := "pending"; info_Status_PodIP := [];
                 info_CreatedAt := 1000 |} [])
           "pod-9" (fresh tt)) = (Some st, None)
    /\ pss_Id st = "pod-9"
    /\ pss_Network_Ip st = EmptyString.
Proof.
  destruct (PodSandboxStatus_address
              (healthyClient
                 {| info_PodName := "default_web_9f3c_2"; info_Spec_Labels := ∅;
                    info_Status_Phase := "pending"; info_Status_PodIP := [];
                    info_CreatedAt := 1000 |} [])
              "pod-9" tt tt _ eq_refl eq_refl)
    as (st & Hres & Hid & Hnone & _).
  exists st. split; [exact Hres|]. split; [exact Hid|exact (Hnone eq_refl)].
Defined.

(* ===================================================================== *)
(** ** Further properties of the listing *)
(* ===================================================================== *)

Section ListLoopFacts.
Context {W : Type}.

(** The loop calls nothing, and logs one error line exactly when it
    fails. *)
Lemma ListPodSandbox_loop_state (filter : option PodSandboxFilter)
      (pods : list PodListResult) :
  forall (items : list PodSandbox) (s : RT W),
    let run := ListPodSandbox_loop filter pods items s in
    world (snd run) = world s
    /\ calls (snd run) = calls s
    /\ (snd (fst run) = None -> glog (snd run) = glog s)
    /\ (snd (fst run) <> None ->
        exists line, glog (snd run) = (glog s ++ [line])%list
                     /\ log_severity line = ErrorLevel).
Proof.
  induction pods as [|pod pods IH]; intros items s.
  - simpl. repeat split; try reflexivity. intros H. congruence.
  - simpl ListPodSandbox_loop.
    destruct (parseSandboxName (pod_PodName pod)) as [[[[n ns] u] a] [e|]].
    + run_monad. repeat split; try reflexivity; try discriminate.
      intros _. eexists. split; reflexivity.
    + destruct (filteredOut filter pod (toPodSandboxState (pod_Status pod))); apply IH.
Qed.

(** Whether the loop fails, and with which error, is decided by the names
    alone. *)
Lemma ListPodSandbox_loop_error_part (filter filter' : option PodSandboxFilter)
      (pods : list PodListResult) :
  forall (items items' : list PodSandbox) (s s' : RT W),
    snd (fst (ListPodSandbox_loop filter pods items s)) =
    snd (fst (ListPodSandbox_loop filter' pods items' s')).
Proof.
  induction pods as [|pod pods IH]; intros items items' s s'; [reflexivity|].
  simpl ListPodSandbox_loop.
  destruct (parseSandboxName (pod_PodName pod)) as [[[[n ns] u] a] [e|]].
  - reflexivity.
  - destruct (filteredOut filter pod _), (filteredOut filter' pod _); apply IH.
Qed.

Lemma ListPodSandbox_loop_unset (pods : list PodListResult) :
  forall (items : list PodSandbox) (s : RT W),
    ListPodSandbox_loop (Some unsetFilter) pods items s =
    ListPodSandbox_loop None pods items s.
Proof.
  induction pods as [|pod pods IH]; intros items s; [reflexivity|].
  simpl ListPodSandbox_loop.
  destruct (parseSandboxName (pod_PodName pod)) as [[[[n ns] u] a] [e|]].
  - reflexivity.
  - apply IH.
Qed.

End ListLoopFacts.

Lemma ListPodSandbox_run {W : Type} (client : Client W)
      (filter : option PodSandboxFilter) (w : W) :
  ListPodSandbox client filter (fresh w) =
    match snd (fst (GetPodList client w)) with
    | Some e =>
        ((None, Some e),
         mkRT (snd (GetPodList client w)) [CallGetPodList]
              [mkLogEntry ErrorLevel "GetPodList failed: %v" [ArgError e]])
    | None =>
        ListPodSandbox_loop filter (fst (fst (GetPodList client w))) []
                            (mkRT (snd (GetPodList client w)) [CallGetPodList] [])
    end.
Proof.
  unfold ListPodSandbox. run_monad.
  destruct (GetPodList client w) as [[pods [e|]] w']; reflexivity.
Qed.

Lemma filter_kept_length (filter : option PodSandboxFilter) (pods : list PodListResult) :
  (length (List.filter (kept filter) pods) <= length pods)%nat.
Proof.
  induction pods as [|p ps IH]; simpl; [lia|].
  destruct (kept filter p); simpl; lia.
Qed.

Lemma filter_kept_nil (filter : option PodSandboxFilter) (pods : list PodListResult) :
  List.filter (kept filter) pods = [] <->
  (forall R, In R pods -> ~ matchesFilter filter R).
Proof.
  split.
  - intros Hnil R HR Hm.
    assert (Hin : In R (List.filter (kept filter) pods)).
    { apply filter_In. split; [exact HR|apply kept_matches, Hm]. }
    rewrite Hnil in Hin. destruct Hin.
  - intros Hnone. induction pods as [|p ps IH]; [reflexivity|]. simpl.
    destruct (kept filter p) eqn:Hk.
    + exfalso. apply (Hnone p); [left; reflexivity|apply kept_matches, Hk].
    + apply IH. intros R HR. apply Hnone. right. exact HR.
Qed.

(** X10.  When the engine cannot list its pods, [ListPodSandbox] returns a
    nil slice and the engine's error whatever came with it and whatever the
    filter is; when the engine has no pods it returns an empty slice, not
    nil, and a nil error. *)
Theorem ListPodSandbox_no_pods {W : Type} (client : Client W)
        (filter : option PodSandboxFilter) (w : W) :
  (forall pods e w',
      GetPodList client w = ((pods, Some e), w') ->
      fst (ListPodSandbox client filter (fresh w)) = (None, Some e))
  /\ (forall w',
        GetPodList client w = (([], None), w') ->
        fst (ListPodSandbox client filter (fresh w)) = (Some [], None)).
Proof.
  split.
  - intros pods e w' H. rewrite ListPodSandbox_run, H. reflexivity.
  - intros w' H. rewrite ListPodSandbox_run, H. reflexivity.
Qed.

Lemma ListPodSandbox_no_pods_witness :
  fst (ListPodSandbox downClient (Some sampleFilter) (fresh tt)) =
    (None, Some (EngineError "connection refused"))
  /\ fst (ListPodSandbox (healthyClient (sampleInfo ∅ 0) []) (Some sampleFilter) (fresh tt))
     = (Some [], None).
Proof.
  split.
  - exact (proj1 (ListPodSandbox_no_pods downClient (Some sampleFilter) tt)
             [] (EngineError "connection refused") tt eq_refl).
  - exact (proj2 (ListPodSandbox_no_pods (healthyClient (sampleInfo ∅ 0) [])
                    (Some sampleFilter) tt) tt eq_refl).
Defined.

(** X11.  The filter has no part in whether a listing fails: on the same
    engine state, [ListPodSandbox] returns the same error (nil or not) under
    any two filters.  And a filter only removes entries: whatever is listed
    under a filter is also listed without one. *)
Theorem ListPodSandbox_filter_only_removes {W : Type} (client : Client W)
        (filter filter' : option PodSandboxFilter) (w : W) :
  snd (fst (ListPodSandbox client filter (fresh w))) =
  snd (fst (ListPodSandbox client filter' (fresh w)))
  /\ (forall items err,
        fst (ListPodSandbox client filter (fresh w)) = (Some items, err) ->
        exists all,
          fst (ListPodSandbox client None (fresh w)) = (Some all, None)
          /\ (length items <= length all)%nat
          /\ forall entry, In entry items -> In entry all).
Proof.
  split.
  - rewrite !ListPodSandbox_run.
    destruct (snd (fst (GetPodList client w))); [reflexivity|].
    apply ListPodSandbox_loop_error_part.
  - intros items err Hres.
    destruct (ListPodSandbox_inv client filter w items err Hres)
      as (_ & Herr & Hall & ->).
    destruct (GetPodList client w) as [[pods e] w'] eqn:Hlist. simpl in *. subst e.
    rewrite (ListPodSandbox_ok client None w w' pods Hlist Hall). simpl.
    eexists. split; [reflexivity|]. split.
    + rewrite <- !(Permutation_length (sortByCreatedAt_perm _)), !length_map.
      assert (Hnone : List.filter (kept None) pods = pods).
      { clear. induction pods as [|p ps IH]; [reflexivity|]. simpl. rewrite IH. reflexivity. }
      rewrite Hnone. apply filter_kept_length.
    + intros entry. rewrite !In_sortByCreatedAt, !in_map_iff.
      intros (R & <- & HR). exists R. split; [reflexivity|].
      apply filter_In in HR as [HR _]. apply filter_In. split; [exact HR|reflexivity].
Qed.

Lemma ListPodSandbox_filter_only_removes_witness :
  exists all,
    fst (ListPodSandbox (healthyClient (sampleInfo ∅ 0) samplePods) None (fresh tt))
    = (Some all, None)
    /\ (1 <= length all)%nat.
Proof.
  destruct (proj2 (ListPodSandbox_filter_only_removes
                     (healthyClient (sampleInfo ∅ 0) samplePods)
                     (Some sampleFilter) None tt) _ None eq_refl)
    as (all & Hall & Hlen & _).
  exists all. split; [exact Hall|exact Hlen].
Defined.

(** X12.  A filter that is present but has no clause set is the same as no
    filter: [ListPodSandbox] returns the same result and leaves the same
    state behind. *)
Theorem ListPodSandbox_unset_filter {W : Type} (client : Client W) (w : W) :
  ListPodSandbox client (Some unsetFilter) (fresh w) =
  ListPodSandbox client None (fresh w).
Proof.
  rewrite !ListPodSandbox_run.
  destruct (snd (fst (GetPodList client w))); [reflexivity|].
  apply ListPodSandbox_loop_unset.
Qed.

(** X13.  A listing never has more entries than the engine has pods: it has
    as many entries as there are pods that satisfy the filter (pods that
    translate to equal entries are all listed), as many as the engine has
    pods when there is no filter, and it is empty exactly when no pod
    satisfies the filter. *)
Theorem ListPodSandbox_length {W : Type} (client : Client W)
        (filter : option PodSandboxFilter) (w : W)
        (items : list PodSandbox) (err : error) :
  fst (ListPodSandbox client filter (fresh w)) = (Some items, err) ->
  let pods := fst (fst (GetPodList client w)) in
  length items = length (List.filter (kept filter) pods)
  /\ (length items <= length pods)%nat
  /\ (filter = None -> length items = length pods)
  /\ (items = [] <-> forall R, In R pods -> ~ matchesFilter filter R).
Proof.
  intros Hres pods.
  destruct (ListPodSandbox_inv client filter w items err Hres) as (_ & _ & _ & Hitems).
  fold pods in Hitems.
  assert (Hlen : length items = length (List.filter (kept filter) pods)).
  { rewrite Hitems, <- (Permutation_length (sortByCreatedAt_perm _)).
    apply length_map. }
  split; [exact Hlen|]. split; [rewrite Hlen; apply filter_kept_length|]. split.
  - intros ->. rewrite Hlen. f_equal.
    clear. induction pods as [|p ps IH]; [reflexivity|]. simpl. rewrite IH. reflexivity.
  - rewrite <- filter_kept_nil. split.
    + intros ->. simpl in Hlen. destruct (List.filter (kept filter) pods);
        [reflexivity|discriminate].
    + intros Hnil. rewrite Hnil in Hlen. destruct items; [reflexivity|discriminate].
Qed.

Lemma ListPodSandbox_length_witness :
  exists items,
    fst (ListPodSandbox (healthyClient (sampleInfo ∅ 0) samplePods)
                        (Some (mkFilter (Some "pod-7") None None)) (fresh tt))
    = (Some items, None)
    /\ items = []
    /\ forall R, In R samplePods ->
                 ~ matchesFilter (Some (mkFilter (Some "pod-7") None None)) R.
Proof.
  eexists. split; [reflexivity|]. split; [reflexivity|].
  exact (proj1 (proj2 (proj2 (proj2
           (ListPodSandbox_length (healthyClient (sampleInfo ∅ 0) samplePods)
              (Some (mkFilter (Some "pod-7") None None)) tt _ None eq_refl))))
           eq_refl).
Defined.

(** X14.  Every entry of a listing satisfies the clauses of the filter that
    are set: with an id clause every entry has that id (so at most the pods
    with that id are listed), with a state clause every entry has that
    state, and with a label selector every entry's labels hold each pair of
    the selector. *)
Theorem ListPodSandbox_entries_satisfy {W : Type} (client : Client W)
        (f : PodSandboxFilter) (w : W) (items : list PodSandbox) (err : error) :
  fst (ListPodSandbox client (Some f) (fresh w)) = (Some items, err) ->
  forall entry, In entry items ->
    (forall id, flt_Id f = Some id -> ps_Id entry = id)
    /\ (forall st, flt_State f = Some st -> ps_State entry = st)
    /\ (forall selector k v,
          flt_LabelSelector f = Some selector -> selector !! k = Some v ->
          ps_Labels entry !! k = Some v).
Proof.
  intros Hres entry Hin.
  destruct (ListPodSandbox_inv client (Some f) w items err Hres) as (_ & _ & _ & ->).
  apply In_sortByCreatedAt, in_map_iff in Hin as (R & <- & HR).
  apply filter_In in HR as [_ Hk]. apply kept_matches in Hk.
  destruct (Hk f eq_refl) as (Hid & Hst & Hsel).
  unfold sandboxOf.
  destruct (parseSandboxName (pod_PodName R)) as [[[[n ns] u] a] e]. simpl.
  split; [exact Hid|]. split; [exact Hst|].
  intros selector k v Hs. exact (Hsel selector Hs k v).
Qed.

Lemma ListPodSandbox_entries_satisfy_witness :
  exists items,
    fst (ListPodSandbox (healthyClient (sampleInfo ∅ 0) samplePods)
                        (Some sampleFilter) (fresh tt)) = (Some items, None)
    /\ forall entry, In entry items ->
         ps_State entry = READY /\ ps_Labels entry !! "app" = Some "web".
Proof.
  eexists. split; [reflexivity|]. intros entry Hin.
  destruct (ListPodSandbox_entries_satisfy (healthyClient (sampleInfo ∅ 0) samplePods)
              sampleFilter tt _ None eq_refl entry Hin) as (_ & Hst & Hsel).
  split; [exact (Hst READY eq_refl)|].
  exact (Hsel {[ "app" := "web" ]} "app" "web" eq_refl eq_refl).
Defined.

(** X15.  The two queries make one call each: in every case (success,
    engine error, name that does not decode) [PodSandboxStatus] calls
    [GetPodInfo] once for the given id and nothing else, [ListPodSandbox]
    calls [GetPodList] once and nothing else, and the engine is left as that
    call left it. *)
Theorem queries_call_once {W : Type} (client : Client W)
        (podSandboxID : string) (filter : option PodSandboxFilter) (w : W) :
  calls (snd (PodSandboxStatus client podSandboxID (fresh w))) =
    [CallGetPodInfo podSandboxID]
  /\ world (snd (PodSandboxStatus client podSandboxID (fresh w))) =
       snd (GetPodInfo client podSandboxID w)
  /\ calls (snd (ListPodSandbox client filter (fresh w))) = [CallGetPodList]
  /\ world (snd (ListPodSandbox client filter (fresh w))) = snd (GetPodList client w).
Proof.
  split; [|split].
  - unfold PodSandboxStatus. run_monad.
    destruct (GetPodInfo client podSandboxID w) as [[info [e|]] w']; simpl;
      [reflexivity|].
    destruct (parseSandboxName (info_PodName info)) as [[[[n ns] u] a] [e|]]; reflexivity.
  - unfold PodSandboxStatus. run_monad.
    destruct (GetPodInfo client podSandboxID w) as [[info [e|]] w']; simpl;
      [reflexivity|].
    destruct (parseSandboxName (info_PodName info)) as [[[[n ns] u] a] [e|]]; reflexivity.
  - rewrite ListPodSandbox_run.
    destruct (snd (fst (GetPodList client w))); [split; reflexivity|].
    destruct (ListPodSandbox_loop_state filter (fst (fst (GetPodList client w))) []
                (mkRT (snd (GetPodList client w)) [CallGetPodList] []))
      as (Hw & Hc & _).
    split; [exact Hc|exact Hw].
Qed.

(** X16.  Each operation logs exactly when it fails: for [Version],
    [RunPodSandbox], [StopPodSandbox], [DeletePodSandbox],
    [PodSandboxStatus] and [ListPodSandbox], the returned error is nil if
    and only if the operation wrote nothing to the log. *)
Theorem failures_are_logged {W : Type} (client : Client W)
        (config : PodSandboxConfig) (podSandboxID : string)
        (filter : option PodSandboxFilter) (w : W) :
  (snd (fst (Version client (fresh w))) = None <->
   glog (snd (Version client (fresh w))) = [])
  /\ (snd (fst (RunPodSandbox client config (fresh w))) = None <->
      glog (snd (RunPodSandbox client config (fresh w))) = [])
  /\ (fst (StopPodSandbox client podSandboxID (fresh w)) = None <->
      glog (snd (StopPodSandbox client podSandboxID (fresh w))) = [])
  /\ (fst (DeletePodSandbox client podSandboxID (fresh w)) = None <->
      glog (snd (DeletePodSandbox client podSandboxID (fresh w))) = [])
  /\ (snd (fst (PodSandboxStatus client podSandboxID (fresh w))) = None <->
      glog (snd (PodSandboxStatus client podSandboxID (fresh w))) = [])
  /\ (snd (fst (ListPodSandbox client filter (fresh w))) = None <->
      glog (snd (ListPodSandbox client filter (fresh w))) = []).
Proof.
  split; [|split; [|split; [|split; [|split]]]].
  - rewrite Version_run. simpl.
    destruct (snd (fst (GetVersion client w))); simpl; split; congruence.
  - destruct (RunPodSandbox_cases client config w)
      as [(e & Hb & Hrun)
         |[(userpod & podID & e & w1 & Hb & Hc & Hrun)
          |[(userpod & podID & w1 & w2 & Hb & Hc & Hs & Hrun)
           |[(userpod & podID & e & w1 & w2 & w3 & Hb & Hc & Hs & Hr & Hrun)
            |(userpod & podID & e & re & w1 & w2 & w3 & Hb & Hc & Hs & Hr & Hrun)]]]];
      rewrite Hrun; simpl; split; congruence.
  - destruct (StopPod client podSandboxID w) as [[[code cause] err] w'] eqn:Hstop.
    rewrite (StopPodSandbox_run client podSandboxID w w' code cause err Hstop). simpl.
    destruct err; split; congruence.
  - rewrite DeletePodSandbox_run. simpl.
    destruct (fst (RemovePod client podSandboxID w)); simpl; split; congruence.
  - unfold PodSandboxStatus. run_monad.
    destruct (GetPodInfo client podSandboxID w) as [[info [e|]] w']; simpl;
      [split; congruence|].
    destruct (parseSandboxName (info_PodName info)) as [[[[n ns] u] a] [e|]]; simpl;
      split; congruence.
  - rewrite ListPodSandbox_run.
    destruct (snd (fst (GetPodList client w))); simpl; [split; congruence|].
    destruct (ListPodSandbox_loop_state filter (fst (fst (GetPodList client w))) []
                (mkRT (snd (GetPodList client w)) [CallGetPodList] []))
      as (_ & _ & Hok & Hfail).
    simpl in Hok, Hfail. split; [exact Hok|].
    intros Hnil.
    destruct (snd (fst (ListPodSandbox_loop filter (fst (fst (GetPodList client w))) []
                {| world := snd (GetPodList client w);
                   calls := [CallGetPodList]; glog := [] |}))) as [e|] eqn:He;
      [|reflexivity].
    destruct Hfail as (line & Hline & _); [discriminate|].
    rewrite Hnil in Hline. discriminate.
Qed.

Lemma ListPodSandbox_loop_skip_decoded {W : Type} (filter : option PodSandboxFilter)
      (good rest : list PodListResult) :
  Forall (fun pod => decodeError (pod_PodName pod) = None) good ->
  forall (items : list PodSandbox) (s : RT W),
  exists items',
    ListPodSandbox_loop filter (good ++ rest) items s =
    ListPodSandbox_loop filter rest items' s.
Proof.
  induction 1 as [|pod good Hpod Hgood IH]; intros items s.
  - exists items. reflexivity.
  - simpl ListPodSandbox_loop.
    destruct (decodeError_cases (pod_PodName pod))
      as [[(n & ns & u & a & Hparse) _]|[_ Herr]]; [|congruence].
    rewrite Hparse.
    destruct (filteredOut filter pod (toPodSandboxState (pod_Status pod))); apply IH.
Qed.

(** X17.  When several names of the engine's list do not decode, the
    listing fails on the first of them in the engine's order: the error
    returned is the decode error of that record, one error line naming it is
    logged, and the records after it are not looked at (the result is the
    same whatever they are). *)
Theorem ListPodSandbox_first_bad_name {W : Type} (client : Client W)
        (filter : option PodSandboxFilter) (w w' : W)
        (good : list PodListResult) (bad : PodListResult) (rest : list PodListResult) :
  GetPodList client w = (((good ++ bad :: rest)%list, None), w') ->
  Forall (fun pod => decodeError (pod_PodName pod) = None) good ->
  decodeError (pod_PodName bad) <> None ->
  ListPodSandbox client filter (fresh w) =
    ((None, Some (InvalidNameFormat (pod_PodName bad))),
     mkRT w' [CallGetPodList]
          [mkLogEntry ErrorLevel "ParseSandboxName for %s failed: %v"
                      [ArgString (pod_PodName bad);
                       ArgError (InvalidNameFormat (pod_PodName bad))]]).
Proof.
  intros Hlist Hgood Hbad.
  rewrite ListPodSandbox_run, Hlist. simpl.
  destruct (ListPodSandbox_loop_skip_decoded filter good (bad :: rest) Hgood []
              (mkRT w' [CallGetPodList] [])) as (items' & ->).
  simpl ListPodSandbox_loop.
  destruct (decodeError_cases (pod_PodName bad))
    as [[_ Hok]|[Hparse _]]; [congruence|].
  rewrite Hparse. reflexivity.
Qed.

Lemma ListPodSandbox_first_bad_name_witness :
  fst (ListPodSandbox
         (healthyClient (sampleInfo ∅ 0)
            [samplePod "pod-1" "default_web_9f3c_2" "running" ∅ 10;
             samplePod "pod-2" "default_db_1" "running" ∅ 20;
             samplePod "pod-3" "nonsense" "running" ∅ 30])
         None (fresh tt)) =
    (None, Some (InvalidNameFormat "default_db_1")).
Proof.
  rewrite (ListPodSandbox_first_bad_name
             (healthyClient (sampleInfo ∅ 0)
                [samplePod "pod-1" "default_web_9f3c_2" "running" ∅ 10;
                 samplePod "pod-2" "default_db_1" "running" ∅ 20;
                 samplePod "pod-3" "nonsense" "running" ∅ 30])
             None tt tt
             [samplePod "pod-1" "default_web_9f3c_2" "running" ∅ 10]
             (samplePod "pod-2" "default_db_1" "running" ∅ 20)
             [samplePod "pod-3" "nonsense" "running" ∅ 30] eq_refl).
  - reflexivity.
  - constructor; [reflexivity|constructor].
  - vm_compute. discriminate.
Defined.

(** X18.  The status and the listing agree on a pod: when the record that
    [GetPodInfo] returns and a record of the engine's list have the same
    name, phase and creation time, the status of the one and the listing
    entry of the other carry the same metadata, state and creation time
    (both paths decode the name, map the phase and convert the time the same
    way). *)
Theorem status_and_listing_agree {W : Type} (client : Client W)
        (podSandboxID : string) (filter : option PodSandboxFilter) (w w' : W)
        (info : PodInfo) (R : PodListResult)
        (items : list PodSandbox) (err : error) :
  GetPodInfo client podSandboxID w = ((info, None), w') ->
  fst (ListPodSandbox client filter (fresh w)) = (Some items, err) ->
  In R (fst (fst (GetPodList client w))) ->
  matchesFilter filter R ->
  pod_PodName R = info_PodName info ->
  pod_Status R = info_Status_Phase info ->
  pod_CreatedAt R = info_CreatedAt info ->
  exists st entry,
    fst (PodSandboxStatus client podSandboxID (fresh w)) = (Some st, None)
    /\ In entry items
    /\ ps_Id entry = pod_PodID R
    /\ ps_Metadata entry = pss_Metadata st
    /\ ps_State entry = pss_State st
    /\ ps_CreatedAt entry = pss_CreatedAt st.
Proof.
  intros Hinfo Hres HR Hm Hname Hphase Hcreated.
  destruct (ListPodSandbox_inv client filter w items err Hres)
    as (_ & _ & Hall & ->).
  assert (Hdec : decodeError (pod_PodName R) = None).
  { rewrite Forall_forall in Hall. apply Hall. apply list_elem_of_In. exact HR. }
  destruct (decodeError_cases (pod_PodName R))
    as [[(n & ns & u & a & Hparse) _]|[_ Herr]]; [|congruence].
  assert (Hparse' := Hparse). rewrite Hname in Hparse'.
  rewrite (PodSandboxStatus_ok client podSandboxID w w' info n ns u a Hinfo Hparse').
  eexists _, (sandboxOf R). split; [reflexivity|]. split.
  - apply In_sortByCreatedAt, in_map, filter_In. split; [exact HR|].
    apply kept_matches, Hm.
  - rewrite (sandboxOf_decoded R n ns u a None Hparse). simpl.
    rewrite Hphase, Hcreated. auto.
Qed.

Lemma status_and_listing_agree_witness :
  exists st entry,
    fst (PodSandboxStatus (healthyClient (sampleInfo ∅ 30) samplePods) "pod-1" (fresh tt))
    = (Some st, None)
    /\ ps_Id entry = "pod-1"
    /\ ps_Metadata entry = pss_Metadata st
    /\ ps_CreatedAt entry = pss_CreatedAt st.
Proof.
  destruct (status_and_listing_agree (healthyClient (sampleInfo ∅ 30) samplePods)
              "pod-1" None tt tt (sampleInfo ∅ 30)
              (samplePod "pod-1" "default_web_9f3c_2" "running" {[ "app" := "web" ]} 30)
              _ None eq_refl eq_refl)
    as (st & entry & Hst & _ & Hid & Hmeta & _ & Hcreated).
  - left. reflexivity.
  - intros f [=].
  - reflexivity.
  - reflexivity.
  - reflexivity.
  - exists st, entry. auto.
Defined.
